(** * sysver: a shallow embedding of [sysver.c]

    The program parses one command-line flag, asks the operating system
    for one fact and prints it.  The embedding keeps the shape of the C
    file: the helper [strpchr], the pointer walk [consltill], the two
    [sysctl] wrappers, the kernel-image scan [get_inst_kern_ver], the
    one-argument parser [match_args], [print_usage] and [main].

    - bytes are [ascii]; the 2048-byte stack buffer is a [list ascii];
      a pointer into it is an index, and a read outside the array is
      undefined behaviour, recorded as the outcome [Undef];
    - C strings handed in or out (argv, flag tokens, the duplicated
      version string) are [string]: the bytes before the terminator;
    - system calls are answered by an environment record, their effects
      (output streams, the open descriptor, a trace of calls) live in a
      state threaded by a small monad with process exit. *)

From Stdlib Require Import Ascii String List ZArith Lia Bool Arith.
From Stdlib Require Import DecimalString.
Import ListNotations.

Local Open Scope string_scope.
Local Open Scope list_scope.

(** ** Bytes and C strings *)

Definition NUL : ascii := "000"%char.
Definition NL : ascii := "010"%char.

Definition bytes (s : string) : list ascii := list_ascii_of_string s.

(** A pointer into an array is modelled by the bytes from the pointee
    to the end of the array.  [None] stands for an access outside the
    array. *)

(* sysver.c:31-42: walk the haystack from index 0; stop with 0 at the
   terminator, with the index at the first byte equal to c. *)
Fixpoint strpchr_from (i : nat) (haystack : list ascii) (c : ascii)
  : option nat :=
  match haystack with
  | [] => None
  | x :: rest =>
      if Ascii.eqb x NUL then Some 0
      else if Ascii.eqb x c then Some i
      else strpchr_from (S i) rest c
  end.

Definition strpchr (haystack : list ascii) (c : ascii) : option nat :=
  strpchr_from 0 haystack c.

(* sysver.c:46-56: while (n--) s++; *)
Fixpoint consltill (p n : nat) : nat :=
  match n with
  | 0 => p
  | S n' => consltill (S p) n'
  end.

(** libc [strdup]: the bytes up to the first terminator. *)
Fixpoint c_string_at (mem : list ascii) : option string :=
  match mem with
  | [] => None
  | x :: rest =>
      if Ascii.eqb x NUL then Some EmptyString
      else option_map (String x) (c_string_at rest)
  end.

(** libc [strstr]: offset of the first occurrence of [needle] in
    [haystack]; an empty needle is found at offset 0. *)
Fixpoint strstr (haystack needle : string) : option nat :=
  if String.prefix needle haystack then Some 0
  else match haystack with
       | EmptyString => None
       | String _ rest => option_map S (strstr rest needle)
       end.

(** printf's [%d]. *)
Definition fmt_d (z : Z) : string := NilZero.string_of_int (Z.to_int z).

(** ** The operating system and the process state *)

Inductive hw_key : Type :=
  | HW_MACHINE | HW_MODEL | HW_NCPU | HW_BYTEORDER | HW_NCPUONLINE | HW_SMT.

Record utsname : Type := mkUts {
  sysname : string;
  nodename : string;
  release : string;
  version : string;
  machine : string
}.

Record env : Type := mkEnv {
  progname : string;                      (* __progname *)
  strerror : string;                      (* text err() appends for errno *)
  sysctl_string : hw_key -> option string;  (* None: sysctl() == -1 *)
  sysctl_number : hw_key -> option Z;
  uname : option utsname;                 (* None: uname() == -1 *)
  getuid : Z;
  geteuid : Z;
  REQUIRE_ROOT : bool;                    (* set unless BSD_KERN_PATH is given *)
  kern_open : bool;                       (* open(BSD_KERN_PATH) succeeds *)
  kern_reads : list (list ascii);         (* what each read() delivers *)
  stack_garbage : nat -> ascii;           (* buf[] before the first read *)
  strdup_ok : bool                        (* strdup() finds memory *)
}.

Inductive event : Type :=
  | EvOpen
  | EvRead (nread : nat)
  | EvClose
  | EvStrdup.

Record state : Type := mkState {
  st_stdout : string;
  st_stderr : string;
  st_fd_open : bool;          (* the descriptor onto the kernel image *)
  st_trace : list event
}.

Definition st0 : state := mkState "" "" false [].

Inductive outcome (A : Type) : Type :=
  | Ret (a : A) (s : state)          (* the call returns *)
  | Exit (status : Z) (s : state)    (* exit(), err(), errx() *)
  | Undef.                           (* undefined behaviour *)

Arguments Ret {A} a s.
Arguments Exit {A} status s.
Arguments Undef {A}.

Definition M (A : Type) : Type := state -> outcome A.

Definition ret {A} (a : A) : M A := fun s => Ret a s.

Definition bind {A B} (m : M A) (k : A -> M B) : M B :=
  fun s => match m s with
           | Ret a s' => k a s'
           | Exit n s' => Exit n s'
           | Undef => Undef
           end.

Declare Scope sysver_scope.
Delimit Scope sysver_scope with sysver.
Notation "x <- m ;; k" := (bind m (fun x => k))
  (at level 61, m at next level, right associativity) : sysver_scope.
Notation "m ;; k" := (bind m (fun _ => k))
  (at level 61, right associativity) : sysver_scope.
Local Open Scope sysver_scope.

Definition undef {A} : M A := fun _ => Undef.

Definition EXIT_SUCCESS : Z := 0.
Definition EXIT_FAILURE : Z := 1.

Definition exit {A} (status : Z) : M A := fun s => Exit status s.

Definition put_stdout (t : string) : M unit :=
  fun s => Ret tt (mkState (st_stdout s ++ t)%string (st_stderr s)
                           (st_fd_open s) (st_trace s)).

Definition put_stderr (t : string) : M unit :=
  fun s => Ret tt (mkState (st_stdout s) (st_stderr s ++ t)%string
                           (st_fd_open s) (st_trace s)).

Definition log (e : event) : M unit :=
  fun s => Ret tt (mkState (st_stdout s) (st_stderr s)
                           (st_fd_open s) (st_trace s ++ [e])).

Definition set_fd (b : bool) : M unit :=
  fun s => Ret tt (mkState (st_stdout s) (st_stderr s) b (st_trace s)).

(** err(3): "progname: msg: strerror(errno)\n", then exit. *)
Definition err_line (e : env) (msg : string) : string :=
  (progname e ++ ": " ++ msg ++ ": " ++ strerror e ++ String NL "")%string.

Definition err {A} (e : env) (status : Z) (msg : string) : M A :=
  put_stderr (err_line e msg) ;;
  exit status.

(** errx(3): "progname: msg\n", then exit. *)
Definition errx_line (e : env) (msg : string) : string :=
  (progname e ++ ": " ++ msg ++ String NL "")%string.

Definition errx {A} (e : env) (status : Z) (msg : string) : M A :=
  put_stderr (errx_line e msg) ;;
  exit status.

Definition sys_open (e : env) : M bool :=
  log EvOpen ;;
  if kern_open e then set_fd true ;; ret true else ret false.

Definition sys_close : M unit :=
  log EvClose ;; set_fd false.

(** ** System fact readers (sysver.c:60-89) *)

Definition get_sysctl_string (e : env) (key : hw_key) : M string :=
  match sysctl_string e key with
  | None => err e EXIT_FAILURE "sysctl()"
  | Some s => ret s
  end.

Definition get_sysctl_number (e : env) (key : hw_key) : M Z :=
  match sysctl_number e key with
  | None => err e EXIT_FAILURE "sysctl()"
  | Some n => ret n
  end.

(** ** The installed-kernel-version extractor (sysver.c:92-138) *)

Definition BUFSZ : nat := 2048.

Definition buffer : Type := list ascii.

(** [buf] as the function finds it on its stack. *)
Definition fresh_buf (e : env) : buffer := map (stack_garbage e) (seq 0 BUFSZ).

(** [read(fd, buf, sizeof(buf))] delivering [data]: at most [BUFSZ] bytes
    land at the start of [buf], the rest of [buf] keeps what it held. *)
Definition load (data : list ascii) (buf : buffer) : buffer :=
  let chunk := firstn BUFSZ data in
  chunk ++ skipn (length chunk) buf.

Definition peek (buf : buffer) (i : nat) : option ascii := nth_error buf i.

Fixpoint poke (buf : buffer) (i : nat) (c : ascii) : buffer :=
  match buf, i with
  | [], _ => []
  | _ :: rest, 0 => c :: rest
  | x :: rest, S i' => x :: poke rest i' c
  end.

(* sysver.c:119-120, with the short circuit of && *)
Definition marker_at (buf : buffer) (p : nat) : option bool :=
  match peek buf p with
  | None => None
  | Some c0 =>
    if negb (Ascii.eqb c0 "@") then Some false else
    match peek buf (p + 1) with
    | None => None
    | Some c1 =>
      if negb (Ascii.eqb c1 "(") then Some false else
      match peek buf (p + 2) with
      | None => None
      | Some c2 =>
        if negb (Ascii.eqb c2 "#") then Some false else
        match peek buf (p + 3) with
        | None => None
        | Some c3 => Some (Ascii.eqb c3 ")")
        end
      end
    end
  end.

Inductive scan_result : Type :=
  | Hit (p : nat)     (* the test succeeded at buf + p *)
  | Miss              (* p reached end *)
  | Wild.             (* the test read outside buf *)

(* sysver.c:117: for (p = buf, end = p + nread; p < end; p++), where
   [n] is end - p. *)
Fixpoint scan (buf : buffer) (p n : nat) : scan_result :=
  match n with
  | 0 => Miss
  | S n' =>
      match marker_at buf p with
      | None => Wild
      | Some true => Hit p
      | Some false => scan buf (S p) n'
      end
  end.

(* sysver.c:121-131, the body of the if *)
Definition on_match (e : env) (buf : buffer) (p0 : nat)
  : M (option string) :=
  let p := consltill p0 4 in
  match strpchr (skipn p buf) NL with
  | None => undef
  | Some pos_dist =>
      let buf' := if (0 <? pos_dist)%nat then poke buf (p + pos_dist) NUL
                  else buf in
      sys_close ;;
      log EvStrdup ;;
      match c_string_at (skipn p buf') with
      | None => undef
      | Some s =>
          if strdup_ok e then ret (Some s)
          else err e EXIT_FAILURE "strdup()"
      end
  end.

(* sysver.c:116-137: the while loop and what follows it.  [pending] is
   what the coming read() calls deliver; an empty delivery, or none
   left, is read() returning 0 (or -1). *)
Fixpoint read_loop (e : env) (pending : list (list ascii)) (buf : buffer)
  : M (option string) :=
  match pending with
  | [] => log (EvRead 0) ;; sys_close ;; ret None
  | data :: rest =>
      let nread := length (firstn BUFSZ data) in
      log (EvRead nread) ;;
      match nread with
      | 0 => sys_close ;; ret None
      | _ =>
          let buf' := load data buf in
          match scan buf' 0 nread with
          | Wild => undef
          | Hit p => on_match e buf' p
          | Miss => read_loop e rest buf'
          end
      end
  end.

Definition require_root (e : env) : M unit :=
  if REQUIRE_ROOT e then
    if negb (getuid e =? 0)%Z then
      if negb (geteuid e =? 0)%Z then
        errx e EXIT_FAILURE (progname e ++ " must be run as root")%string
      else
        errx e EXIT_FAILURE ("getuid(): " ++ fmt_d (getuid e)
                             ++ " != geteuid(): " ++ fmt_d (geteuid e))%string
    else ret tt
  else ret tt.

Definition get_inst_kern_ver (e : env) : M (option string) :=
  require_root e ;;
  ok <- sys_open e ;;
  if ok then read_loop e (kern_reads e) (fresh_buf e)
  else err e EXIT_FAILURE "open()".

(** ** The identity reader (sysver.c:142-154) *)

Definition line (t : string) : string := (t ++ String NL "")%string.

Definition get_uname_info (e : env) (only_version : bool) : M unit :=
  match uname e with
  | None => err e EXIT_FAILURE "uname()"
  | Some uts =>
      if only_version then
        put_stdout (line (sysname uts ++ " " ++ release uts)%string)
      else
        put_stdout (line (sysname uts ++ " " ++ nodename uts ++ " "
                          ++ release uts ++ " " ++ version uts ++ " "
                          ++ machine uts)%string)
  end.

(** ** The command dispatcher (sysver.c:25-28, 157-177) *)

Record command_option : Type := mkOpt {
  code : Z;
  cmd : option string          (* None is the NULL pointer *)
}.

Definition is_sentinel (o : command_option) : bool :=
  (code o =? 0)%Z && match cmd o with None => true | Some _ => false end.

(* sysver.c:167-174.  Walking past the array, or handing NULL to
   strstr, is undefined: [None]. *)
Fixpoint match_loop (cb : list command_option) (arg : string) : option Z :=
  match cb with
  | [] => None
  | o :: rest =>
      if is_sentinel o then Some 0%Z
      else match cmd o with
           | None => None
           | Some tok =>
               match strstr tok arg with
               | Some _ => Some (code o)
               | None => match_loop rest arg
               end
           end
  end.

(* argv[1][0] == '-' && argv[1][1] == '\0' *)
Definition bare_dash (arg : string) : bool :=
  match arg with
  | EmptyString => false
  | String c rest =>
      Ascii.eqb c "-" && match rest with EmptyString => true | _ => false end
  end.

(** [argv] lists the strings before the closing NULL of the C array. *)
Definition match_args (cb : list command_option) (argv : list string)
  : option Z :=
  match argv with
  | [] => None
  | [_] => Some (-1)%Z
  | _ :: arg :: _ =>
      if bare_dash arg then Some (-2)%Z else match_loop cb arg
  end.

(** ** Usage and entry point (sysver.c:180-278) *)

Definition TAB : ascii := "009"%char.

Definition usage_row (flag : string) (tabs : nat) (what : string) : string :=
  (" " ++ flag ++ string_of_list_ascii (repeat TAB tabs) ++ line what)%string.

Definition usage_text : string :=
  (line "usage"
   ++ usage_row "-machine" 1 "machine architecture"
   ++ usage_row "-model" 2 "cpu model"
   ++ usage_row "-ncpu" 2 "number of cpus"
   ++ usage_row "-border" 1 "byte order"
   ++ usage_row "-oncpu" 2 "number of online cpus"
   ++ usage_row "-issmt" 2 "is smt enabled?"
   ++ usage_row "-uname" 2 "equivalent of uname -a"
   ++ usage_row "-bsd" 2 "openbsd version"
   ++ usage_row "-ikern" 2 "currently installed kernel"
   ++ usage_row "-help" 2 "show me")%string.

Definition print_usage {A} (status : Z) : M A :=
  (if (status =? EXIT_SUCCESS)%Z then put_stdout usage_text
   else put_stderr usage_text) ;;
  exit status.

(* sysver.c:205-217: the ten flags, then the closing { 0, NULL }. *)
Definition flags : list command_option :=
  [ mkOpt 1 (Some "-machine");
    mkOpt 2 (Some "-model");
    mkOpt 3 (Some "-ncpu");
    mkOpt 4 (Some "-border");
    mkOpt 5 (Some "-oncpu");
    mkOpt 6 (Some "-issmt");
    mkOpt 7 (Some "-uname");
    mkOpt 8 (Some "-bsdver");
    mkOpt 9 (Some "-ikern");
    mkOpt 10 (Some "-help") ].

Definition cb : list command_option := flags ++ [mkOpt 0 None].

(* sysver.c:234-244 *)
Definition byte_order_name (byte_out : Z) : string :=
  match byte_out with
  | 1234%Z => "little"
  | 4321%Z => "big"
  | _ => "mixed"
  end.

(** argv[1] as the %s of a diagnostic. *)
Definition argv1 (argv : list string) : string := nth 1 argv "".

(** The value is the exit status of a [main] that returns; control
    leaving the switch reaches the closing brace, which is status 0. *)
Definition main (e : env) (argv : list string) : M Z :=
  match match_args cb argv with
  | None => undef
  | Some c =>
      match c with
      | 1%Z =>
          s <- get_sysctl_string e HW_MACHINE ;;
          put_stdout (line s) ;; ret 0%Z
      | 2%Z =>
          s <- get_sysctl_string e HW_MODEL ;;
          put_stdout (line s) ;; ret 0%Z
      | 3%Z =>
          n <- get_sysctl_number e HW_NCPU ;;
          put_stdout (line (fmt_d n)) ;; ret 0%Z
      | 4%Z =>
          byte_out <- get_sysctl_number e HW_BYTEORDER ;;
          put_stdout (line (byte_order_name byte_out)) ;; ret 0%Z
      | 5%Z =>
          n <- get_sysctl_number e HW_NCPUONLINE ;;
          put_stdout (line (fmt_d n)) ;; ret 0%Z
      | 6%Z =>
          n <- get_sysctl_number e HW_SMT ;;
          put_stdout (line (if (n =? 0)%Z then "no" else "yes")) ;; ret 0%Z
      | 7%Z => get_uname_info e false ;; ret 0%Z
      | 8%Z => get_uname_info e true ;; ret 0%Z
      | 9%Z =>
          kern_ver <- get_inst_kern_ver e ;;
          match kern_ver with
          | None => put_stderr (line "unknown (I can't find it!)")
          | Some v => put_stdout (line v)
          end ;;
          ret 0%Z
      | 10%Z => print_usage EXIT_SUCCESS
      | 0%Z =>
          errx e EXIT_FAILURE
               ("'" ++ argv1 argv ++ "' option is invalid.")%string
      | (-1)%Z => print_usage EXIT_FAILURE
      | (-2)%Z =>
          errx e EXIT_FAILURE
               ("'" ++ argv1 argv ++ "' expects an option.")%string
      | _ => ret 0%Z
      end
  end.


(** What a call hands back to its caller, if it returns. *)
Definition returned {A} (o : outcome A) : option A :=
  match o with
  | Ret a _ => Some a
  | _ => None
  end.

(** ** Vocabulary of the specification *)

(** [arg] occurs in [tok] as a contiguous substring. *)
Definition contains (tok arg : string) : Prop :=
  exists pre post, tok = (pre ++ arg ++ post)%string.

Definition token_of (o : command_option) : string :=
  match cmd o with
  | Some t => t
  | None => ""
  end.

(** The marker that introduces an embedded version string. *)
Definition marker : list ascii := bytes "@(#)".

(** [pat] occurs in [l] as a contiguous run of bytes. *)
Definition occurs (pat l : list ascii) : Prop :=
  exists pre post, l = pre ++ pat ++ post.

(** The deliveries of a regular file: full buffers, then the rest. *)
Fixpoint chunks (fuel : nat) (stream : list ascii) : list (list ascii) :=
  match fuel with
  | 0 => []
  | S fuel' =>
      match stream with
      | [] => []
      | _ => firstn BUFSZ stream :: chunks fuel' (skipn BUFSZ stream)
      end
  end.

Definition file_reads (stream : list ascii) : list (list ascii) :=
  chunks (length stream) stream.

(** The privilege check lets the call through. *)
Definition root_ok (e : env) : bool :=
  negb (REQUIRE_ROOT e) || (getuid e =? 0)%Z.

(** The buffer after the deliveries [pre] have been read into it. *)
Definition buf_after (buf : buffer) (pre : list (list ascii)) : buffer :=
  fold_left (fun b data => load data b) pre buf.

(** Every delivery of [pre] is non-empty and its scan finds nothing,
    so the while loop runs through all of them. *)
Fixpoint quiet (buf : buffer) (pre : list (list ascii)) : bool :=
  match pre with
  | [] => true
  | data :: rest =>
      let n := length (firstn BUFSZ data) in
      (0 <? n)%nat
      && match scan (load data buf) 0 n with Miss => true | _ => false end
      && quiet (load data buf) rest
  end.

(** The state after the calls [evs] were traced and the descriptor was
    left open or closed as [fd] says. *)
Definition traced (evs : list event) (fd : bool) (s : state) : state :=
  mkState (st_stdout s) (st_stderr s) fd (st_trace s ++ evs).

(** The byte before the closing newline of a line of text. *)
Definition last_but_one (t : string) : option ascii :=
  nth_error (rev (bytes t)) 1.

(** A delivery made of the bytes [a], the marker, the version text [v]
    and a newline, then the bytes [b]. *)
Definition version_chunk (a : list ascii) (v : string) (b : list ascii)
  : list ascii :=
  a ++ marker ++ bytes v ++ NL :: b.

(** Search for a run of bytes, as a test. *)
Fixpoint starts_with (pat l : list ascii) : bool :=
  match pat, l with
  | [], _ => true
  | _ :: _, [] => false
  | x :: pat', y :: l' => Ascii.eqb x y && starts_with pat' l'
  end.

Fixpoint occursb (pat l : list ascii) : bool :=
  starts_with pat l
  || match l with
     | [] => false
     | _ :: l' => occursb pat l'
     end.

(** A machine to run examples on. *)
Definition demo_env (reads : list (list ascii)) (garbage : nat -> ascii)
  : env :=
  mkEnv "sysver" "Input/output error"
        (fun k => match k with
                  | HW_MACHINE => Some "amd64"
                  | _ => Some "AMD Ryzen"
                  end)
        (fun k => match k with
                  | HW_BYTEORDER => Some 1234%Z
                  | _ => Some 4%Z
                  end)
        (Some (mkUts "OpenBSD" "host" "7.4" "GENERIC.MP#1" "amd64"))
        0 0 true true reads garbage true.

(** A kernel image of 2051 bytes: a first full buffer whose fourth
    byte is a closing parenthesis, then the three bytes "@(#" and the
    end of the file. *)
Definition stale_image : list ascii :=
  bytes "xxx)7.4" ++ NL :: repeat NUL 2040 ++ bytes "@(#".

(** A kernel image of 2059 bytes: a first full buffer with " 7.3" and
    a newline from its twelfth byte on, then "@(#)OpenBSD" and the end
    of the file. *)
Definition short_tail_image : list ascii :=
  bytes "xxxxxxxxxxx 7.3" ++ NL :: repeat NUL 2032 ++ bytes "@(#)OpenBSD".

(** Closes [~ In c l] for explicit [c] and [l]. *)
Ltac not_among :=
  let H := fresh in
  intros H; simpl in H;
  repeat (destruct H as [H|H]; [discriminate H|]); exact H.

(** * Properties *)

(** ** The dispatcher *)

Section Dispatcher.

Lemma prefix_spec (n h : string) :
  String.prefix n h = true <-> exists post, h = (n ++ post)%string.
Proof.
  revert h; induction n as [|a n IH]; intros h.
  - destruct h; simpl; split; intros; eauto.
  - destruct h as [|b h]; simpl.
    + split; [discriminate|]. intros [post H]; discriminate.
    + destruct (ascii_dec a b) as [->|Hab].
      * rewrite IH. split; intros [post H]; exists post.
        -- now rewrite H.
        -- now injection H.
      * split; [discriminate|]. intros [post H].
        injection H as H1 _. congruence.
Qed.

Lemma strstr_eq (h n : string) :
  strstr h n
  = if String.prefix n h then Some 0
    else match h with
         | EmptyString => None
         | String _ rest => option_map S (strstr rest n)
         end.
Proof. destruct h; reflexivity. Qed.

Lemma strstr_contains (h n : string) :
  strstr h n <> None <-> contains h n.
Proof.
  induction h as [|c h IH]; rewrite strstr_eq.
  - destruct (String.prefix n "") eqn:P.
    + split; [intros _|intros _; discriminate].
      apply prefix_spec in P as [post P]. exists "", post. exact P.
    + split; [congruence|]. intros [pre [post H]].
      destruct pre; simpl in H; [|discriminate].
      assert (String.prefix n "" = true) by (apply prefix_spec; eauto).
      congruence.
  - destruct (String.prefix n (String c h)) eqn:P.
    + split; [intros _|intros _; discriminate].
      apply prefix_spec in P as [post P]. exists "", post. exact P.
    + destruct (strstr h n) eqn:S; simpl.
      * split; [intros _|intros _; discriminate].
        assert (Hc : contains h n) by (apply IH; discriminate).
        destruct Hc as [pre [post H]].
        exists (String c pre), post. simpl. now rewrite H.
      * split; [congruence|]. intros [pre [post H]].
        destruct pre as [|c' pre]; simpl in H.
        -- assert (String.prefix n (String c h) = true)
             by (apply prefix_spec; eauto).
           congruence.
        -- injection H as _ H. apply (proj2 IH).
           exists pre, post. exact H.
Qed.

Lemma strstr_none (h n : string) : strstr h n = None <-> ~ contains h n.
Proof.
  rewrite <- strstr_contains. destruct (strstr h n); split; intro H;
    try congruence. exfalso; apply H; discriminate.
Qed.

(** The loop over a table made of proper entries and one sentinel
    returns the code of the first entry whose token contains the
    argument, and 0 when the sentinel is reached. *)
Lemma match_loop_skip (l1 rest : list command_option) (arg : string) :
  Forall (fun o => is_sentinel o = false /\ cmd o <> None
                   /\ ~ contains (token_of o) arg) l1 ->
  match_loop (l1 ++ rest) arg = match_loop rest arg.
Proof.
  induction 1 as [|o l1 [Hs [Hc Hn]] _ IH]; simpl; [reflexivity|].
  rewrite Hs. unfold token_of in Hn. destruct (cmd o) as [tok|]; [|congruence].
  apply strstr_none in Hn. now rewrite Hn.
Qed.

Lemma match_loop_hit (o : command_option) (rest : list command_option)
      (arg : string) :
  is_sentinel o = false -> cmd o <> None -> contains (token_of o) arg ->
  match_loop (o :: rest) arg = Some (code o).
Proof.
  intros Hs Hc Hin. simpl. rewrite Hs. unfold token_of in Hin.
  destruct (cmd o) as [tok|]; [|congruence].
  apply strstr_contains in Hin. destruct (strstr tok arg); congruence.
Qed.

Lemma flags_proper :
  Forall (fun o => is_sentinel o = false /\ cmd o <> None) flags.
Proof. repeat constructor; discriminate. Qed.

Lemma bare_dash_spec (arg : string) : bare_dash arg = true <-> arg = "-".
Proof.
  destruct arg as [|c [|d r]]; simpl; split; try discriminate.
  - rewrite andb_true_r. intros H. apply Ascii.eqb_eq in H. now subst.
  - intros H. injection H as ->. reflexivity.
  - rewrite andb_false_r. discriminate.
Qed.

End Dispatcher.

(** C2: with an argument after the program name that is not the bare
    dash, the dispatcher returns the code of the first table entry
    whose token contains the argument as a contiguous substring; when
    no token contains it the dispatcher returns 0 and the program exits
    with status 1 after writing "'<arg>' option is invalid." to the
    error stream. *)
Theorem dispatch_first_containing
        (e : env) (prog arg : string) (more : list string) (s : state) :
  arg <> "-" ->
  (forall l1 o l2,
      flags = l1 ++ o :: l2 ->
      contains (token_of o) arg ->
      Forall (fun o' => ~ contains (token_of o') arg) l1 ->
      match_args cb (prog :: arg :: more) = Some (code o))
  /\ (Forall (fun o => ~ contains (token_of o) arg) flags ->
      match_args cb (prog :: arg :: more) = Some 0%Z
      /\ main e (prog :: arg :: more) s
         = Exit 1 (mkState (st_stdout s)
                           (st_stderr s
                            ++ errx_line e ("'" ++ arg
                                            ++ "' option is invalid."))%string
                           (st_fd_open s) (st_trace s))).
Proof.
  intros Hdash.
  assert (Hb : bare_dash arg = false).
  { destruct (bare_dash arg) eqn:B; [|reflexivity].
    apply bare_dash_spec in B. contradiction. }
  split.
  - intros l1 o l2 Hsplit Hin Hbefore.
    unfold match_args, cb. rewrite Hb, Hsplit, <- app_assoc.
    pose proof flags_proper as P. rewrite Hsplit in P.
    apply Forall_app in P as [P1 P2].
    rewrite match_loop_skip.
    + simpl. inversion P2 as [|? ? [Hs Hc] _]; subst.
      apply match_loop_hit; assumption.
    + rewrite Forall_forall in *. intros o' Ho'.
      destruct (P1 o' Ho'). auto.
  - intros Hnone.
    assert (Hm : match_args cb (prog :: arg :: more) = Some 0%Z).
    { unfold match_args, cb. rewrite Hb. rewrite match_loop_skip.
      - reflexivity.
      - pose proof flags_proper as P. rewrite Forall_forall in *.
        intros o Ho. destruct (P o Ho). auto. }
    split; [exact Hm|].
    unfold main. rewrite Hm. unfold errx, bind, put_stderr, exit, argv1.
    reflexivity.
Qed.

Lemma dispatch_first_containing_witness :
  match_args cb ["sysver"; "mod"] = Some 2%Z
  /\ main (demo_env [] (fun _ => NUL)) ["sysver"; "xyz"] st0
     = Exit 1 (mkState "" ("sysver: 'xyz' option is invalid." ++ String NL "")
                       false []).
Proof.
  assert (Hmod : "mod" <> "-") by discriminate.
  assert (Hxyz : "xyz" <> "-") by discriminate.
  split.
  - apply (proj1 (dispatch_first_containing
                    (demo_env [] (fun _ => NUL)) "sysver" "mod" [] st0 Hmod)
                 [mkOpt 1 (Some "-machine")] (mkOpt 2 (Some "-model"))
                 (skipn 2 flags)).
    + reflexivity.
    + exists "-", "el". reflexivity.
    + repeat constructor. apply strstr_none. reflexivity.
  - apply (proj2 (dispatch_first_containing
                    (demo_env [] (fun _ => NUL)) "sysver" "xyz" [] st0 Hxyz)).
    repeat constructor; apply strstr_none; reflexivity.
Defined.

(** C5: each of the ten exact flag tokens, given as the first argument,
    is dispatched to its own code 1..10; no token of the table contains
    the token of a later entry, so the first containing entry is the
    entry itself. *)
Theorem exact_flags_dispatch (prog : string) (more : list string) :
  match_args cb (prog :: "-machine" :: more) = Some 1%Z
  /\ match_args cb (prog :: "-model" :: more) = Some 2%Z
  /\ match_args cb (prog :: "-ncpu" :: more) = Some 3%Z
  /\ match_args cb (prog :: "-border" :: more) = Some 4%Z
  /\ match_args cb (prog :: "-oncpu" :: more) = Some 5%Z
  /\ match_args cb (prog :: "-issmt" :: more) = Some 6%Z
  /\ match_args cb (prog :: "-uname" :: more) = Some 7%Z
  /\ match_args cb (prog :: "-bsdver" :: more) = Some 8%Z
  /\ match_args cb (prog :: "-ikern" :: more) = Some 9%Z
  /\ match_args cb (prog :: "-help" :: more) = Some 10%Z
  /\ ForallOrdPairs
       (fun earlier later => ~ contains (token_of earlier) (token_of later))
       flags.
Proof.
  repeat (split; [reflexivity|]).
  repeat constructor; apply strstr_none; reflexivity.
Qed.

Section Messages.

Lemma bytes_app (a b : string) : bytes (a ++ b) = bytes a ++ bytes b.
Proof. induction a as [|c a IH]; simpl; [reflexivity|]. now rewrite IH. Qed.

Lemma errx_line_tail (e : env) (body : string) (c : ascii) :
  last_but_one (errx_line e (body ++ String c "")) = Some c.
Proof.
  unfold last_but_one, errx_line.
  rewrite !bytes_app. simpl bytes at 4.
  rewrite !rev_app_distr. reflexivity.
Qed.

End Messages.

(** C8: when the first argument is exactly "-", the dispatcher returns
    -2 and the program exits with status 1 after writing "'-' expects
    an option." to the error stream; the run without operand takes
    another path (code -1) and writes the usage block instead, which is
    a different text. *)
Theorem bare_dash_rejected
        (e : env) (prog : string) (more : list string) (s : state) :
  match_args cb (prog :: "-" :: more) = Some (-2)%Z
  /\ main e (prog :: "-" :: more) s
     = Exit 1 (mkState (st_stdout s)
                       (st_stderr s ++ errx_line e "'-' expects an option.")
                       (st_fd_open s) (st_trace s))
  /\ match_args cb [prog] = Some (-1)%Z
  /\ main e [prog] s
     = Exit 1 (mkState (st_stdout s) (st_stderr s ++ usage_text)
                       (st_fd_open s) (st_trace s))
  /\ errx_line e "'-' expects an option." <> usage_text.
Proof.
  repeat (split; [reflexivity|]).
  intros H. apply (f_equal last_but_one) in H.
  change "'-' expects an option."
    with ("'-' expects an option" ++ String "." "")%string in H.
  rewrite errx_line_tail in H. vm_compute in H. discriminate.
Qed.

(** C10: an empty first argument is dispatched to code 1, the entry of
    -machine, since every token contains the empty string; the program
    then prints the hardware architecture and returns with status 0,
    writing nothing to the error stream. *)
Theorem empty_argument_is_machine
        (e : env) (prog : string) (more : list string) (s : state)
        (arch : string) :
  sysctl_string e HW_MACHINE = Some arch ->
  Forall (fun o => contains (token_of o) "") flags
  /\ match_args cb (prog :: "" :: more) = Some 1%Z
  /\ main e (prog :: "" :: more) s
     = Ret 0%Z (mkState (st_stdout s ++ line arch) (st_stderr s)
                        (st_fd_open s) (st_trace s)).
Proof.
  intros Harch. split; [|split].
  - repeat constructor; apply strstr_contains; discriminate.
  - reflexivity.
  - unfold main. change (match_args cb (prog :: "" :: more)) with (Some 1%Z).
    cbv iota beta. unfold get_sysctl_string, bind. rewrite Harch. reflexivity.
Qed.

Lemma empty_argument_is_machine_witness :
  main (demo_env [] (fun _ => NUL)) ["sysver"; ""] st0
  = Ret 0%Z (mkState (line "amd64") "" false []).
Proof.
  apply (empty_argument_is_machine
           (demo_env [] (fun _ => NUL)) "sysver" [] st0 "amd64").
  reflexivity.
Defined.

Lemma byte_order_name_spec (v : Z) :
  byte_order_name v
  = if (v =? 1234)%Z then "little"
    else if (v =? 4321)%Z then "big" else "mixed".
Proof.
  destruct (Z.eqb_spec v 1234) as [->|H1]; [reflexivity|].
  destruct (Z.eqb_spec v 4321) as [->|H2]; [reflexivity|].
  destruct v as [|p|p]; try reflexivity.
  do 13 (try (destruct p as [p|p|]; try reflexivity)); contradiction.
Qed.

(** C6: when the byte-order operation (code 4) is selected and the
    query succeeds with the integer [v], the program prints "little" for
    1234, "big" for 4321 and "mixed" for every other value, followed by
    a newline, on standard output, and returns with status 0. *)
Theorem byte_order_mapping
        (e : env) (argv : list string) (s : state) (v : Z) :
  match_args cb argv = Some 4%Z ->
  sysctl_number e HW_BYTEORDER = Some v ->
  main e argv s
  = Ret 0%Z (mkState
               (st_stdout s
                ++ line (if (v =? 1234)%Z then "little"
                         else if (v =? 4321)%Z then "big" else "mixed"))
               (st_stderr s) (st_fd_open s) (st_trace s)).
Proof.
  intros Hcode Hv. unfold main. rewrite Hcode. cbv iota beta.
  unfold get_sysctl_number, bind. rewrite Hv.
  rewrite <- byte_order_name_spec. reflexivity.
Qed.

Lemma byte_order_mapping_witness :
  main (demo_env [] (fun _ => NUL)) ["sysver"; "-border"] st0
  = Ret 0%Z (mkState (line "little") "" false []).
Proof.
  apply (byte_order_mapping
           (demo_env [] (fun _ => NUL)) ["sysver"; "-border"] st0 1234%Z);
    reflexivity.
Defined.

(** ** The extractor *)

Section Extractor.

Variable e : env.

Lemma consltill_add (p n : nat) : consltill p n = p + n.
Proof.
  revert p; induction n as [|n IH]; intros p; simpl; [lia|].
  rewrite IH. lia.
Qed.

Lemma strpchr_from_newline (i : nat) (s rest : list ascii) :
  ~ In NUL s -> ~ In NL s ->
  strpchr_from i (s ++ NL :: rest) NL = Some (i + length s).
Proof.
  revert i; induction s as [|x s IH]; intros i H0 H1; simpl.
  - f_equal; lia.
  - destruct (Ascii.eqb_spec x NUL) as [->|_]; [exfalso; apply H0; now left|].
    destruct (Ascii.eqb_spec x NL) as [->|_]; [exfalso; apply H1; now left|].
    rewrite IH; [f_equal; lia| |]; intros H; [apply H0|apply H1]; now right.
Qed.

Lemma c_string_at_terminated (s rest : list ascii) :
  ~ In NUL s ->
  c_string_at (s ++ NUL :: rest) = Some (string_of_list_ascii s).
Proof.
  induction s as [|x s IH]; intros H0; simpl; [reflexivity|].
  destruct (Ascii.eqb_spec x NUL) as [->|_]; [exfalso; apply H0; now left|].
  rewrite IH; [reflexivity|]. intros H; apply H0; now right.
Qed.

Lemma poke_skipn (p k : nat) (buf : buffer) (c : ascii) :
  skipn p (poke buf (p + k) c) = poke (skipn p buf) k c.
Proof.
  revert buf; induction p as [|p IH]; intros buf; simpl; [reflexivity|].
  destruct buf as [|x buf]; simpl; [now destruct k|]. apply IH.
Qed.

Lemma poke_middle (s rest : list ascii) (x c : ascii) :
  poke (s ++ x :: rest) (length s) c = s ++ c :: rest.
Proof. induction s as [|y s IH]; simpl; [reflexivity|]. now rewrite IH. Qed.

(** The body of the if, when a newline follows the marker at a
    positive distance with no terminator before it. *)
Lemma on_match_truncates
      (buf : buffer) (p : nat) (s rest : list ascii) (st : state) :
  skipn (p + 4) buf = s ++ NL :: rest ->
  s <> [] -> ~ In NUL s -> ~ In NL s ->
  strdup_ok e = true ->
  on_match e buf p st
  = Ret (Some (string_of_list_ascii s)) (traced [EvClose; EvStrdup] false st).
Proof.
  intros Hmem Hne H0 H1 Hdup. unfold on_match.
  rewrite consltill_add, Hmem. unfold strpchr.
  rewrite strpchr_from_newline by assumption. simpl (0 + length s).
  destruct (Nat.ltb_spec 0 (length s)) as [_|Hlen].
  - rewrite poke_skipn, Hmem, poke_middle.
    rewrite c_string_at_terminated by assumption.
    rewrite Hdup. unfold traced, bind, sys_close, log, set_fd, ret. simpl.
    now rewrite <- app_assoc.
  - destruct s; [contradiction|simpl in Hlen; lia].
Qed.

Lemma read_loop_cons
      (data : list ascii) (rest : list (list ascii)) (buf : buffer)
      (st : state) :
  read_loop e (data :: rest) buf st
  = match length (firstn BUFSZ data) with
    | 0 => (sys_close ;; ret None)
             (traced [EvRead 0] (st_fd_open st) st)
    | S _ =>
        match scan (load data buf) 0 (length (firstn BUFSZ data)) with
        | Wild => Undef
        | Hit p => on_match e (load data buf) p
                     (traced [EvRead (length (firstn BUFSZ data))]
                             (st_fd_open st) st)
        | Miss => read_loop e rest (load data buf)
                    (traced [EvRead (length (firstn BUFSZ data))]
                            (st_fd_open st) st)
        end
    end.
Proof.
  change (read_loop e (data :: rest) buf st)
    with ((log (EvRead (length (firstn BUFSZ data))) ;;
           match length (firstn BUFSZ data) with
           | 0 => sys_close ;; ret None
           | S _ =>
               match scan (load data buf) 0 (length (firstn BUFSZ data)) with
               | Wild => undef
               | Hit p => on_match e (load data buf) p
               | Miss => read_loop e rest (load data buf)
               end
           end) st).
  unfold bind at 1. unfold log at 1.
  destruct (length (firstn BUFSZ data)); [reflexivity|].
  destruct (scan (load data buf) 0 (S n)); reflexivity.
Qed.

(** One turn of the while loop whose scan finds nothing. *)
Lemma read_loop_miss
      (data : list ascii) (rest : list (list ascii)) (buf : buffer)
      (st : state) :
  (0 < length (firstn BUFSZ data))%nat ->
  scan (load data buf) 0 (length (firstn BUFSZ data)) = Miss ->
  read_loop e (data :: rest) buf st
  = read_loop e rest (load data buf)
              (traced [EvRead (length (firstn BUFSZ data))]
                      (st_fd_open st) st).
Proof.
  intros Hn Hscan. rewrite read_loop_cons, Hscan.
  destruct (length (firstn BUFSZ data)); [lia|reflexivity].
Qed.

(** One turn of the while loop whose scan finds the marker. *)
Lemma read_loop_hit
      (data : list ascii) (rest : list (list ascii)) (buf : buffer)
      (p : nat) (st : state) :
  scan (load data buf) 0 (length (firstn BUFSZ data)) = Hit p ->
  read_loop e (data :: rest) buf st
  = on_match e (load data buf) p
             (traced [EvRead (length (firstn BUFSZ data))]
                     (st_fd_open st) st).
Proof.
  intros Hscan. rewrite read_loop_cons, Hscan.
  destruct (length (firstn BUFSZ data)) eqn:Hn; [|reflexivity].
  discriminate.
Qed.

Lemma traced_traced (evs1 evs2 : list event) (fd1 fd2 : bool) (st : state) :
  traced evs2 fd2 (traced evs1 fd1 st) = traced (evs1 ++ evs2) fd2 st.
Proof. unfold traced; simpl. now rewrite app_assoc. Qed.

Lemma traced_nil (st : state) : traced [] (st_fd_open st) st = st.
Proof. destruct st; unfold traced; simpl. now rewrite app_nil_r. Qed.

(** The loop runs through a quiet prefix of deliveries, tracing one
    read for each. *)
Lemma read_loop_quiet :
  forall (pre rest : list (list ascii)) (buf : buffer) (st : state),
    quiet buf pre = true ->
    read_loop e (pre ++ rest) buf st
    = read_loop e rest (buf_after buf pre)
                (traced (map (fun d => EvRead (length (firstn BUFSZ d))) pre)
                        (st_fd_open st) st).
Proof.
  induction pre as [|data pre IH]; intros rest buf st Hq.
  - simpl. now rewrite traced_nil.
  - change (quiet buf (data :: pre))
      with ((0 <? length (firstn BUFSZ data))%nat
            && match scan (load data buf) 0 (length (firstn BUFSZ data))
               with Miss => true | _ => false end
            && quiet (load data buf) pre) in Hq.
    apply andb_prop in Hq as [Hq Hq3].
    apply andb_prop in Hq as [Hq1 Hq2].
    apply Nat.ltb_lt in Hq1.
    destruct (scan (load data buf) 0 (length (firstn BUFSZ data))) eqn:Hs;
      try discriminate.
    rewrite <- app_comm_cons.
    rewrite read_loop_miss by assumption.
    rewrite IH by assumption. rewrite traced_traced. reflexivity.
Qed.

Lemma read_loop_nil (buf : buffer) (st : state) :
  read_loop e [] buf st
  = Ret None (traced [EvRead 0; EvClose] false st).
Proof.
  unfold traced. simpl. unfold bind, log, sys_close, set_fd, ret. simpl.
  now rewrite <- app_assoc.
Qed.

(** A call of the body of the if that returns has closed the
    descriptor, then duplicated. *)
Lemma on_match_returns
      (buf : buffer) (p : nat) (st st' : state) (r : option string) :
  on_match e buf p st = Ret r st' ->
  (exists v, r = Some v) /\ st' = traced [EvClose; EvStrdup] false st.
Proof.
  unfold on_match. destruct (strpchr _ _) as [pos_dist|]; [|discriminate].
  unfold bind, sys_close, log, set_fd. simpl.
  destruct (c_string_at _) as [v|]; [|discriminate].
  destruct (strdup_ok e); [|discriminate].
  unfold ret. intros H. injection H as <- <-. split; [eauto|].
  unfold traced. simpl. now rewrite <- app_assoc.
Qed.

Lemma read_loop_returns :
  forall (pending : list (list ascii)) (buf : buffer) (st st' : state)
         (r : option string),
    read_loop e pending buf st = Ret r st' ->
    exists nreads,
      st' = traced (map EvRead nreads
                    ++ EvClose :: match r with
                                  | Some _ => [EvStrdup]
                                  | None => []
                                  end)
                   false st.
Proof.
  induction pending as [|data rest IH]; intros buf st st' r.
  - rewrite read_loop_nil. intros H. injection H as <- <-.
    exists [0]. reflexivity.
  - rewrite read_loop_cons.
    destruct (length (firstn BUFSZ data)) as [|n] eqn:Hn.
    + unfold bind, sys_close, log, set_fd, ret. simpl.
      intros H. injection H as <- <-. exists [0].
      unfold traced. simpl. now rewrite <- app_assoc.
    + destruct (scan (load data buf) 0 (S n)) as [p| |]; [| |discriminate].
      * intros H. apply on_match_returns in H as [[v ->] ->].
        exists [S n]. now rewrite traced_traced.
      * intros H. apply IH in H as [nreads ->].
        exists (S n :: nreads). now rewrite traced_traced.
Qed.

(** The prologue: privilege check and open. *)
Lemma get_inst_kern_ver_enters (st : state) :
  root_ok e = true -> kern_open e = true ->
  get_inst_kern_ver e st
  = read_loop e (kern_reads e) (fresh_buf e) (traced [EvOpen] true st).
Proof.
  intros Hroot Hopen. unfold get_inst_kern_ver, require_root, root_ok in *.
  assert (Hpass : (if REQUIRE_ROOT e
                   then if negb (getuid e =? 0)%Z
                        then if negb (geteuid e =? 0)%Z
                             then errx e EXIT_FAILURE
                                    (progname e ++ " must be run as root")%string
                             else errx e EXIT_FAILURE
                                    ("getuid(): " ++ fmt_d (getuid e)
                                     ++ " != geteuid(): "
                                     ++ fmt_d (geteuid e))%string
                        else ret tt
                   else ret tt) = ret tt).
  { destruct (REQUIRE_ROOT e); [|reflexivity].
    simpl in Hroot. now rewrite Hroot. }
  rewrite Hpass. unfold bind, ret, sys_open, log. rewrite Hopen. reflexivity.
Qed.

End Extractor.

Section Scan.

Lemma peek_app_l (l t : list ascii) (i : nat) (c : ascii) :
  peek l i = Some c -> peek (l ++ t) i = Some c.
Proof.
  unfold peek. intros H. rewrite nth_error_app1; [exact H|].
  apply nth_error_Some. congruence.
Qed.

Lemma peek_skip (a l : list ascii) (k : nat) :
  peek (a ++ l) (length a + k) = peek l k.
Proof. induction a as [|x a IH]; simpl; [reflexivity|exact IH]. Qed.

Lemma marker_at_app_l (l t : list ascii) (p : nat) (b : bool) :
  marker_at l p = Some b -> marker_at (l ++ t) p = Some b.
Proof.
  unfold marker_at.
  destruct (peek l p) as [c0|] eqn:E0; [|discriminate].
  rewrite (peek_app_l _ t _ _ E0).
  destruct (negb (Ascii.eqb c0 "@")); [trivial|].
  destruct (peek l (p + 1)) as [c1|] eqn:E1; [|discriminate].
  rewrite (peek_app_l _ t _ _ E1).
  destruct (negb (Ascii.eqb c1 "(")); [trivial|].
  destruct (peek l (p + 2)) as [c2|] eqn:E2; [|discriminate].
  rewrite (peek_app_l _ t _ _ E2).
  destruct (negb (Ascii.eqb c2 "#")); [trivial|].
  destruct (peek l (p + 3)) as [c3|] eqn:E3; [|discriminate].
  now rewrite (peek_app_l _ t _ _ E3).
Qed.

Lemma marker_at_skip (a l : list ascii) (k : nat) :
  marker_at (a ++ l) (length a + k) = marker_at l k.
Proof.
  unfold marker_at. rewrite <- !Nat.add_assoc, !peek_skip. reflexivity.
Qed.

Lemma marker_at_marker (a x : list ascii) :
  marker_at (a ++ marker ++ x) (length a) = Some true.
Proof.
  rewrite <- (Nat.add_0_r (length a)), marker_at_skip. reflexivity.
Qed.

Lemma scan_app_miss (l t : list ascii) (n p : nat) :
  scan l p n = Miss -> scan (l ++ t) p n = Miss.
Proof.
  revert p; induction n as [|n IH]; intros p; simpl; [trivial|].
  destruct (marker_at l p) as [[|]|] eqn:E; try discriminate.
  rewrite (marker_at_app_l _ t _ _ E). apply IH.
Qed.

Lemma scan_add (buf : buffer) (n1 n2 p : nat) :
  scan buf p (n1 + n2)
  = match scan buf p n1 with
    | Miss => scan buf (p + n1) n2
    | r => r
    end.
Proof.
  revert p; induction n1 as [|n1 IH]; intros p; simpl.
  - now rewrite Nat.add_0_r.
  - destruct (marker_at buf p) as [[|]|]; try reflexivity.
    rewrite IH. now rewrite Nat.add_succ_r.
Qed.

Lemma skipn_skip (a l : list ascii) (k : nat) :
  skipn (length a + k) (a ++ l) = skipn k l.
Proof. induction a as [|x a IH]; simpl; [reflexivity|exact IH]. Qed.

(** Reading into the buffer keeps its size. *)
Lemma load_length (data : list ascii) (buf : buffer) :
  length buf = BUFSZ -> length (load data buf) = BUFSZ.
Proof.
  intros Hbuf. unfold load. rewrite length_app, length_skipn, Hbuf.
  pose proof (firstn_le_length BUFSZ data) as Hle.
  rewrite length_firstn in *. lia.
Qed.

(** A delivery that fits the buffer and holds, after the bytes [a] in
    which the scan finds nothing, the marker and then [tail]: the scan
    of the loaded buffer stops at the marker, and [tail] is what
    follows it in memory. *)
Lemma scan_reaches_marker (a tail : list ascii) (buf : buffer) :
  length (a ++ marker ++ tail) <= BUFSZ ->
  scan (a ++ marker ++ tail) 0 (length a) = Miss ->
  scan (load (a ++ marker ++ tail) buf) 0
       (length (firstn BUFSZ (a ++ marker ++ tail)))
  = Hit (length a)
  /\ skipn (length a + 4) (load (a ++ marker ++ tail) buf)
     = tail ++ skipn (length (a ++ marker ++ tail)) buf.
Proof.
  intros Hfit Hmiss. unfold load. rewrite firstn_all2 by exact Hfit.
  split.
  - rewrite length_app. change (length (marker ++ tail)) with (S (3 + length tail)).
    rewrite scan_add. rewrite scan_app_miss by exact Hmiss.
    simpl (0 + length a). cbn [scan].
    rewrite <- !app_assoc. now rewrite marker_at_marker.
  - rewrite <- !app_assoc. rewrite skipn_skip. reflexivity.
Qed.

End Scan.

(** The extraction at the first hit of the scan, shared by the
    statements below: the loop runs through the quiet deliveries [pre],
    the scan of the next one stops at [p], and in the buffer the
    marker is followed by the bytes [s], free of terminators and
    newlines and not empty, and then a newline. *)
Lemma extract_at_hit
      (e : env) (pre : list (list ascii)) (data : list ascii)
      (post : list (list ascii)) (p : nat) (s rest : list ascii)
      (st : state) :
  kern_reads e = pre ++ data :: post ->
  root_ok e = true -> kern_open e = true -> strdup_ok e = true ->
  quiet (fresh_buf e) pre = true ->
  scan (load data (buf_after (fresh_buf e) pre)) 0
       (length (firstn BUFSZ data)) = Hit p ->
  skipn (p + 4) (load data (buf_after (fresh_buf e) pre)) = s ++ NL :: rest ->
  s <> [] -> ~ In NUL s -> ~ In NL s ->
  returned (get_inst_kern_ver e st) = Some (Some (string_of_list_ascii s)).
Proof.
  intros Hreads Hroot Hopen Hdup Hquiet Hscan Hmem Hne H0 H1.
  rewrite get_inst_kern_ver_enters by assumption.
  rewrite Hreads, read_loop_quiet by assumption.
  rewrite read_loop_hit with (p := p) by assumption.
  rewrite on_match_truncates with (s := s) (rest := rest) by assumption.
  reflexivity.
Qed.

(** C9: a call of get_inst_kern_ver that returns has closed the
    descriptor it opened: the calls it made are the open, the reads,
    the close and, when a string is returned, the duplication after
    the close; nothing was written to either output stream. *)
Theorem descriptor_closed_on_return
        (e : env) (st st' : state) (r : option string) :
  get_inst_kern_ver e st = Ret r st' ->
  st_fd_open st' = false
  /\ st_stdout st' = st_stdout st
  /\ st_stderr st' = st_stderr st
  /\ exists nreads,
       st_trace st'
       = st_trace st
         ++ EvOpen :: map EvRead nreads
         ++ EvClose :: match r with
                       | Some _ => [EvStrdup]
                       | None => []
                       end.
Proof.
  unfold get_inst_kern_ver, require_root, sys_open.
  intros H.
  assert (Hloop : read_loop e (kern_reads e) (fresh_buf e)
                            (traced [EvOpen] true st) = Ret r st').
  { revert H. unfold bind, errx, err, put_stderr, exit, log, set_fd, ret.
    destruct (REQUIRE_ROOT e); [destruct (negb (getuid e =? 0)%Z);
      [destruct (negb (geteuid e =? 0)%Z); try discriminate|]|];
    simpl; destruct (kern_open e); simpl; try discriminate; trivial. }
  apply read_loop_returns in Hloop as [nreads ->].
  rewrite traced_traced. unfold traced; simpl.
  repeat split; trivial. exists nreads. reflexivity.
Qed.

Lemma descriptor_closed_on_return_witness :
  exists st',
    get_inst_kern_ver
      (demo_env [bytes "@(#)OpenBSD 7.4" ++ [NL]] (fun _ => NUL)) st0
    = Ret (Some "OpenBSD 7.4") st'
    /\ st_fd_open st' = false.
Proof.
  eexists. split.
  - vm_compute. reflexivity.
  - apply (descriptor_closed_on_return
             (demo_env [bytes "@(#)OpenBSD 7.4" ++ [NL]] (fun _ => NUL))
             st0 _ (Some "OpenBSD 7.4")).
    vm_compute. reflexivity.
Defined.

(** C3, as the code has it: when the scan of a delivery stops at a
    marker and, in the buffer, the marker is followed by at least one
    byte, none of them a terminator, and then by a first newline, the
    string returned is exactly the bytes between the end of the marker
    and that newline. *)
Theorem version_between_marker_and_newline
        (e : env) (pre : list (list ascii)) (data : list ascii)
        (post : list (list ascii)) (p : nat) (s rest : list ascii)
        (st : state) :
  kern_reads e = pre ++ data :: post ->
  root_ok e = true -> kern_open e = true -> strdup_ok e = true ->
  quiet (fresh_buf e) pre = true ->
  scan (load data (buf_after (fresh_buf e) pre)) 0
       (length (firstn BUFSZ data)) = Hit p ->
  skipn (p + 4) (load data (buf_after (fresh_buf e) pre)) = s ++ NL :: rest ->
  s <> [] -> ~ In NUL s -> ~ In NL s ->
  returned (get_inst_kern_ver e st) = Some (Some (string_of_list_ascii s)).
Proof. apply extract_at_hit. Qed.

Lemma version_between_marker_and_newline_witness :
  returned (get_inst_kern_ver
              (demo_env [bytes "abc@(#)GENERIC#42" ++ NL :: bytes "more"]
                        (fun _ => NUL)) st0)
  = Some (Some "GENERIC#42").
Proof.
  apply (version_between_marker_and_newline
           (demo_env [bytes "abc@(#)GENERIC#42" ++ NL :: bytes "more"]
                     (fun _ => NUL))
           [] (bytes "abc@(#)GENERIC#42" ++ NL :: bytes "more") [] 3
           (bytes "GENERIC#42")
           (bytes "more" ++ repeat NUL (BUFSZ - 22)) st0);
    try (vm_compute; reflexivity); try discriminate; not_among.
Defined.

(** C3 as stated fails twice.  A newline right after the marker is not
    cut: the string returned starts with it and runs on.  And a
    terminator before the newline ends the string there, so the bytes
    up to the newline are not all returned. *)
Lemma newline_claim_fails :
  returned (get_inst_kern_ver
              (demo_env [bytes "@(#)" ++ NL :: bytes "more" ++ [NUL]]
                        (fun _ => NUL)) st0)
  = Some (Some (String NL "more"))
  /\ returned (get_inst_kern_ver
                 (demo_env [bytes "@(#)ab" ++ NUL :: bytes "cd" ++ [NL]]
                           (fun _ => NUL)) st0)
     = Some (Some "ab").
Proof. split; vm_compute; reflexivity. Qed.

(** C1, as the code has it: when one delivery holds the marker followed
    by "OpenBSD 7.4" and a newline, and this marker is the first place
    where the scan's test succeeds (the loop ran through the earlier
    deliveries and the scan found nothing in the bytes before the
    marker), the call returns exactly "OpenBSD 7.4". *)
Theorem first_marker_version_extracted
        (e : env) (pre : list (list ascii)) (a b : list ascii)
        (post : list (list ascii)) (st : state) :
  kern_reads e = pre ++ version_chunk a "OpenBSD 7.4" b :: post ->
  length (version_chunk a "OpenBSD 7.4" b) <= BUFSZ ->
  root_ok e = true -> kern_open e = true -> strdup_ok e = true ->
  quiet (fresh_buf e) pre = true ->
  scan (version_chunk a "OpenBSD 7.4" b) 0 (length a) = Miss ->
  returned (get_inst_kern_ver e st) = Some (Some "OpenBSD 7.4").
Proof.
  intros Hreads Hfit Hroot Hopen Hdup Hquiet Hmiss.
  unfold version_chunk in *.
  destruct (scan_reaches_marker a (bytes "OpenBSD 7.4" ++ NL :: b)
                                (buf_after (fresh_buf e) pre) Hfit Hmiss)
    as [Hhit Hmem].
  rewrite <- app_assoc in Hmem.
  change (Some (Some "OpenBSD 7.4"))
    with (Some (Some (string_of_list_ascii (bytes "OpenBSD 7.4")))).
  eapply extract_at_hit; try eassumption; try discriminate; not_among.
Qed.

Lemma first_marker_version_extracted_witness :
  returned (get_inst_kern_ver
              (demo_env [bytes "ELF"; version_chunk (bytes "..")
                                        "OpenBSD 7.4" (bytes "more...")]
                        (fun _ => NUL)) st0)
  = Some (Some "OpenBSD 7.4").
Proof.
  apply (first_marker_version_extracted
           (demo_env [bytes "ELF"; version_chunk (bytes "..")
                                     "OpenBSD 7.4" (bytes "more...")]
                     (fun _ => NUL))
           [bytes "ELF"] (bytes "..") (bytes "more...") [] st0);
    try (vm_compute; reflexivity).
  vm_compute. lia.
Defined.

(** C1 as stated fails: the delivery below holds the marker followed by
    "OpenBSD 7.4" and a newline, and the call returns the text after an
    earlier marker. *)
Lemma earlier_marker_wins :
  occurs (marker ++ bytes "OpenBSD 7.4" ++ [NL])
         (version_chunk (bytes "@(#)junk" ++ [NL]) "OpenBSD 7.4"
                        (bytes "more"))
  /\ returned (get_inst_kern_ver
                 (demo_env [version_chunk (bytes "@(#)junk" ++ [NL])
                                          "OpenBSD 7.4" (bytes "more")]
                           (fun _ => NUL)) st0)
     = Some (Some "junk").
Proof.
  split.
  - exists (bytes "@(#)junk" ++ [NL]), (bytes "more"). reflexivity.
  - vm_compute. reflexivity.
Qed.

(** ** Reads past the valid bytes *)

Lemma starts_with_app (pat post : list ascii) :
  starts_with pat (pat ++ post) = true.
Proof.
  induction pat as [|x pat IH]; simpl; [reflexivity|].
  now rewrite Ascii.eqb_refl, IH.
Qed.

Lemma occurs_occursb (pat l : list ascii) :
  occurs pat l -> occursb pat l = true.
Proof.
  intros [pre [post ->]]. induction pre as [|x pre IH].
  - simpl app. destruct (pat ++ post) eqn:E; simpl;
      rewrite <- E, starts_with_app; reflexivity.
  - simpl. rewrite IH. apply orb_true_r.
Qed.

(** When the loop runs through every delivery without a hit, the call
    reports absence and [main] prints the fixed message on the error
    stream and returns 0. *)
Lemma quiet_image_is_unknown
      (e : env) (argv : list string) (st : state) :
  match_args cb argv = Some 9%Z ->
  root_ok e = true -> kern_open e = true ->
  quiet (fresh_buf e) (kern_reads e) = true ->
  returned (get_inst_kern_ver e st) = Some None
  /\ exists evs,
       main e argv st
       = Ret 0%Z (mkState (st_stdout st)
                          (st_stderr st ++ line "unknown (I can't find it!)")
                          false (st_trace st ++ evs)).
Proof.
  intros Hcode Hroot Hopen Hquiet.
  assert (Hrun : get_inst_kern_ver e st
                 = Ret None
                       (traced
                          ([EvOpen]
                           ++ map (fun d => EvRead (length (firstn BUFSZ d)))
                                  (kern_reads e)
                           ++ [EvRead 0; EvClose]) false st)).
  { rewrite get_inst_kern_ver_enters by assumption.
    rewrite <- (app_nil_r (kern_reads e)) at 1.
    rewrite read_loop_quiet by assumption.
    rewrite read_loop_nil. now rewrite !traced_traced. }
  split.
  - now rewrite Hrun.
  - eexists. unfold main. rewrite Hcode. cbv iota beta.
    unfold bind at 1. unfold bind at 1. rewrite Hrun. reflexivity.
Qed.

(** C7 on [stale_image]: the marker occurs nowhere in the image, yet
    the test at the start of the second delivery reads the fourth byte
    left over from the first one, the call returns "7.4" and the
    program prints it as the installed kernel version. *)
Theorem stale_bytes_complete_marker :
  length stale_image = 2051
  /\ ~ occurs marker stale_image
  /\ file_reads stale_image = [firstn BUFSZ stale_image; bytes "@(#"]
  /\ returned (get_inst_kern_ver
                 (demo_env (file_reads stale_image) (fun _ => NUL)) st0)
     = Some (Some "7.4")
  /\ main (demo_env (file_reads stale_image) (fun _ => NUL))
          ["sysver"; "-ikern"] st0
     = Ret 0%Z (mkState (line "7.4") "" false
                        [EvOpen; EvRead 2048; EvRead 3; EvClose; EvStrdup]).
Proof.
  split; [reflexivity|]. split.
  - intros H. apply occurs_occursb in H. vm_compute in H. discriminate.
  - repeat split; vm_compute; reflexivity.
Qed.

(** C4 on a last delivery of eleven bytes, "@(#)OpenBSD": the newline
    search and the duplication run past the eleven valid bytes.  Two
    runs with the same deliveries whose buffers differ only at index
    11 return different strings; and on [short_tail_image] the string
    returned ends with bytes left over from the delivery before. *)
Theorem result_depends_on_residual_bytes :
  returned (get_inst_kern_ver
              (demo_env [bytes "@(#)OpenBSD"] (fun _ => NUL)) st0)
  = Some (Some "OpenBSD")
  /\ returned (get_inst_kern_ver
                 (demo_env [bytes "@(#)OpenBSD"]
                           (fun i => if (i =? 11)%nat then "!"%char else NUL))
                 st0)
     = Some (Some "OpenBSD!")
  /\ file_reads short_tail_image
     = [firstn BUFSZ short_tail_image; bytes "@(#)OpenBSD"]
  /\ returned (get_inst_kern_ver
                 (demo_env (file_reads short_tail_image) (fun _ => NUL)) st0)
     = Some (Some "OpenBSD 7.3").
Proof. repeat split; vm_compute; reflexivity. Qed.

(** The test also leaves the buffer: when a full delivery ends with
    the byte "@", the second operand of the test is read at buf[2048],
    outside the array. *)
Lemma marker_test_leaves_buffer :
  get_inst_kern_ver
    (demo_env [repeat "x"%char 2047 ++ ["@"%char]] (fun _ => NUL)) st0
  = Undef.
Proof. vm_compute. reflexivity. Qed.

(** * Further properties of the code *)

(** ** [strpchr] and [consltill] *)

Section Strpchr.

Lemma strpchr_from_first (i : nat) (s1 s2 : list ascii) (c : ascii) :
  c <> NUL -> ~ In NUL s1 -> ~ In c s1 ->
  strpchr_from i (s1 ++ c :: s2) c = Some (i + length s1).
Proof.
  intros Hc. revert i; induction s1 as [|x s1 IH]; intros i H0 H1; simpl.
  - destruct (Ascii.eqb_spec c NUL) as [E|_]; [contradiction|].
    rewrite Ascii.eqb_refl. f_equal; lia.
  - destruct (Ascii.eqb_spec x NUL) as [->|_]; [exfalso; apply H0; now left|].
    destruct (Ascii.eqb_spec x c) as [->|_]; [exfalso; apply H1; now left|].
    rewrite IH; [f_equal; lia| |]; intros H; [apply H0|apply H1]; now right.
Qed.

Lemma strpchr_from_absent (i : nat) (s rest : list ascii) (c : ascii) :
  ~ In NUL s -> ~ In c s ->
  strpchr_from i (s ++ NUL :: rest) c = Some 0.
Proof.
  revert i; induction s as [|x s IH]; intros i H0 H1; simpl; [reflexivity|].
  destruct (Ascii.eqb_spec x NUL) as [->|_]; [exfalso; apply H0; now left|].
  destruct (Ascii.eqb_spec x c) as [->|_]; [exfalso; apply H1; now left|].
  apply IH; intros H; [apply H0|apply H1]; now right.
Qed.

Lemma strpchr_from_positive (mem : list ascii) (c : ascii) :
  forall i k,
    strpchr_from i mem c = Some k -> 0 < k ->
    i <= k
    /\ nth_error mem (k - i) = Some c
    /\ forall j, j < k - i ->
         exists x, nth_error mem j = Some x /\ x <> c /\ x <> NUL.
Proof.
  induction mem as [|x mem IH]; intros i k; simpl; [discriminate|].
  destruct (Ascii.eqb_spec x NUL) as [->|Hx0].
  - intros H Hk. injection H as <-. lia.
  - destruct (Ascii.eqb_spec x c) as [->|Hxc].
    + intros H _. injection H as <-. rewrite Nat.sub_diag.
      repeat split; [lia|]. intros j Hj. lia.
    + intros H Hk. destruct (IH _ _ H Hk) as [Hle [Hat Hbefore]].
      split; [lia|]. replace (k - i) with (S (k - S i)) by lia.
      split; [exact Hat|]. intros [|j] Hj.
      * exists x. auto.
      * apply Hbefore. lia.
Qed.

(** The walk stops with 0 only at the terminator once it has left the
    first byte. *)
Lemma strpchr_from_zero (mem : list ascii) (c : ascii) :
  forall i, strpchr_from (S i) mem c = Some 0 ->
    exists s rest, mem = s ++ NUL :: rest /\ ~ In NUL s /\ ~ In c s.
Proof.
  induction mem as [|x mem IH]; intros i; simpl; [discriminate|].
  destruct (Ascii.eqb_spec x NUL) as [->|Hx0].
  - intros _. exists [], mem. simpl. auto.
  - destruct (Ascii.eqb_spec x c) as [->|Hxc]; [discriminate|].
    intros H. destruct (IH _ H) as [s [rest [-> [H0 H1]]]].
    exists (x :: s), rest. simpl. repeat split; trivial.
    + intros [E|E]; [congruence|contradiction].
    + intros [E|E]; [congruence|contradiction].
Qed.

End Strpchr.

(** X1: in a C string that holds the byte [c] (not the terminator),
    [strpchr] returns the index of the first occurrence of [c]. *)
Theorem strpchr_first_occurrence (s1 s2 : list ascii) (c : ascii) :
  c <> NUL -> ~ In NUL s1 -> ~ In c s1 ->
  strpchr (s1 ++ c :: s2) c = Some (length s1).
Proof. intros. unfold strpchr. now rewrite strpchr_from_first. Qed.

Lemma strpchr_first_occurrence_witness :
  strpchr (bytes "7.4" ++ NL :: bytes "rest") NL = Some 3.
Proof.
  apply (strpchr_first_occurrence (bytes "7.4") (bytes "rest") NL);
    [discriminate|not_among|not_among].
Defined.

(** X2: in a C string that does not hold [c] before its terminator,
    [strpchr] returns 0, the same value as for a hit at the first
    byte. *)
Theorem strpchr_absent_is_zero (s rest : list ascii) (c : ascii) :
  ~ In NUL s -> ~ In c s ->
  strpchr (s ++ NUL :: rest) c = Some 0
  /\ (c <> NUL -> strpchr (c :: s ++ NUL :: rest) c = Some 0).
Proof.
  intros H0 H1. split.
  - unfold strpchr. now apply strpchr_from_absent.
  - intros Hc. unfold strpchr.
    apply (strpchr_from_first 0 [] (s ++ NUL :: rest) c); auto.
Qed.

Lemma strpchr_absent_is_zero_witness :
  strpchr (bytes "7.4" ++ NUL :: bytes "rest") NL = Some 0.
Proof.
  assert (H0 : ~ In NUL (bytes "7.4")) by not_among.
  assert (H1 : ~ In NL (bytes "7.4")) by not_among.
  exact (proj1 (strpchr_absent_is_zero (bytes "7.4") (bytes "rest") NL
                                       H0 H1)).
Defined.

(** X3: a positive result of [strpchr] is the index of a byte equal to
    [c], and every byte before it is neither [c] nor the terminator. *)
Theorem strpchr_positive_sound (mem : list ascii) (c : ascii) (k : nat) :
  strpchr mem c = Some k -> 0 < k ->
  nth_error mem k = Some c
  /\ forall j, j < k ->
       exists x, nth_error mem j = Some x /\ x <> c /\ x <> NUL.
Proof.
  intros H Hk. destruct (strpchr_from_positive mem c 0 k H Hk) as [_ P].
  now rewrite Nat.sub_0_r in P.
Qed.

Lemma strpchr_positive_sound_witness :
  nth_error (bytes "7.4" ++ NL :: bytes "rest") 3 = Some NL.
Proof.
  apply (strpchr_positive_sound (bytes "7.4" ++ NL :: bytes "rest") NL 3);
    [reflexivity|lia].
Defined.

(** X4: [consltill] moves the pointer forward by exactly [n] bytes,
    and two walks in a row are one walk over the sum. *)
Theorem consltill_advances (p n m : nat) :
  consltill p n = p + n
  /\ consltill (consltill p n) m = consltill p (n + m).
Proof.
  assert (H : forall q k, consltill q k = q + k).
  { intros q k; revert q; induction k as [|k IH]; intros q; simpl; [lia|].
    rewrite IH. lia. }
  rewrite !H. lia.
Qed.

(** ** The scan *)

Section ScanSound.

Lemma marker_at_skipn (buf : buffer) (q : nat) :
  marker_at buf q = marker_at (skipn q buf) 0.
Proof.
  unfold marker_at, peek. rewrite !nth_error_skipn.
  now rewrite Nat.add_0_r.
Qed.

Lemma marker_at_window (buf : buffer) (q : nat) (b : bool) :
  marker_at buf q = Some b ->
  (b = true <-> firstn 4 (skipn q buf) = marker).
Proof.
  rewrite marker_at_skipn.
  destruct (skipn q buf) as [|c0 [|c1 [|c2 [|c3 l]]]]; unfold marker_at;
    simpl;
    try destruct (Ascii.eqb_spec c0 "@") as [->|N0]; simpl;
    try destruct (Ascii.eqb_spec c1 "(") as [->|N1]; simpl;
    try destruct (Ascii.eqb_spec c2 "#") as [->|N2]; simpl;
    try destruct (Ascii.eqb_spec c3 ")") as [->|N3]; simpl;
    intros H; try discriminate; injection H as <-;
    split; intros E; try reflexivity; try discriminate;
    unfold marker in E; simpl in E; congruence.
Qed.

Lemma scan_hit_from (buf : buffer) (n : nat) :
  forall p0 p,
    scan buf p0 n = Hit p ->
    p0 <= p < p0 + n
    /\ marker_at buf p = Some true
    /\ forall q, p0 <= q < p -> marker_at buf q = Some false.
Proof.
  induction n as [|n IH]; intros p0 p; simpl; [discriminate|].
  destruct (marker_at buf p0) as [[|]|] eqn:E; try discriminate.
  - intros H. injection H as <-. repeat split; [lia|lia|exact E|].
    intros q Hq. lia.
  - intros H. destruct (IH _ _ H) as [Hr [Hm Hb]].
    repeat split; [lia|lia|exact Hm|].
    intros q Hq. destruct (Nat.eq_dec q p0) as [->|Hne]; [exact E|].
    apply Hb. lia.
Qed.

End ScanSound.

(** X5: when the scan of the first [n] bytes of the buffer stops at
    [p], the four bytes at [p] are the marker, [p] is one of the [n]
    scanned positions, and the marker starts at no earlier position. *)
Theorem scan_hit_is_first_marker (buf : buffer) (n p : nat) :
  scan buf 0 n = Hit p ->
  p < n
  /\ firstn 4 (skipn p buf) = marker
  /\ forall q, q < p -> firstn 4 (skipn q buf) <> marker.
Proof.
  intros H. destruct (scan_hit_from buf n 0 p H) as [Hr [Hm Hb]].
  split; [lia|]. split.
  - now apply (marker_at_window buf p true Hm).
  - intros q Hq E. assert (Hf : marker_at buf q = Some false)
      by (apply Hb; lia).
    apply (marker_at_window buf q false Hf) in E. discriminate.
Qed.

Lemma scan_hit_is_first_marker_witness :
  firstn 4 (skipn 2 (bytes "ab@(#)7.4")) = marker.
Proof.
  apply (scan_hit_is_first_marker (bytes "ab@(#)7.4") 9 2). reflexivity.
Defined.

(** ** Fatal paths of the extractor *)

Section ExtractorExits.

Variable e : env.

Lemma on_match_exits
      (buf : buffer) (p : nat) (st st' : state) (n : Z) :
  on_match e buf p st = Exit n st' ->
  n = 1%Z /\ strdup_ok e = false
  /\ st' = mkState (st_stdout st) (st_stderr st ++ err_line e "strdup()")
                   false (st_trace st ++ [EvClose; EvStrdup]).
Proof.
  unfold on_match. destruct (strpchr _ _) as [pos_dist|]; [|discriminate].
  unfold bind, sys_close, log, set_fd. simpl.
  destruct (c_string_at _) as [v|]; [|discriminate].
  destruct (strdup_ok e); [discriminate|].
  unfold err, bind, put_stderr, exit. simpl.
  intros H. injection H as <- <-. repeat split; trivial.
  now rewrite <- app_assoc.
Qed.

Lemma read_loop_exits :
  forall (pending : list (list ascii)) (buf : buffer) (st st' : state)
         (n : Z),
    read_loop e pending buf st = Exit n st' ->
    n = 1%Z /\ strdup_ok e = false
    /\ exists nreads,
         st' = mkState (st_stdout st)
                       (st_stderr st ++ err_line e "strdup()") false
                       (st_trace st ++ map EvRead nreads
                        ++ [EvClose; EvStrdup]).
Proof.
  induction pending as [|data rest IH]; intros buf st st' n.
  - rewrite read_loop_nil. discriminate.
  - rewrite read_loop_cons.
    destruct (length (firstn BUFSZ data)) as [|k] eqn:Hk.
    + unfold bind, sys_close, log, set_fd, ret. simpl. discriminate.
    + destruct (scan (load data buf) 0 (S k)) as [p| |]; [| |discriminate].
      * intros H. apply on_match_exits in H as [-> [Hd ->]].
        repeat split; trivial. exists [S k]. unfold traced; simpl.
        now rewrite <- app_assoc.
      * intros H. apply IH in H as [-> [Hd [nreads ->]]].
        repeat split; trivial. exists (S k :: nreads). unfold traced; simpl.
        now rewrite <- app_assoc.
Qed.

Lemma fresh_buf_length : length (fresh_buf e) = BUFSZ.
Proof. unfold fresh_buf. now rewrite length_map, length_seq. Qed.

Lemma buf_after_length (pre : list (list ascii)) (buf : buffer) :
  length buf = BUFSZ -> length (buf_after buf pre) = BUFSZ.
Proof.
  revert buf; induction pre as [|d pre IH]; intros buf H; simpl; [exact H|].
  apply IH. now apply load_length.
Qed.

Lemma unprivileged_aux (st : state) :
  REQUIRE_ROOT e = true -> getuid e <> 0%Z ->
  get_inst_kern_ver e st
  = Exit 1 (mkState
              (st_stdout st)
              (st_stderr st
               ++ errx_line e
                    (if (geteuid e =? 0)%Z
                     then "getuid(): " ++ fmt_d (getuid e)
                          ++ " != geteuid(): " ++ fmt_d (geteuid e)
                     else progname e ++ " must be run as root"))
              (st_fd_open st) (st_trace st)).
Proof.
  intros Hreq Huid. unfold get_inst_kern_ver, require_root.
  rewrite Hreq. apply Z.eqb_neq in Huid. rewrite Huid. simpl negb.
  cbv iota. destruct (geteuid e =? 0)%Z; reflexivity.
Qed.

Lemma open_failure_is_fatal_aux (st : state) :
  root_ok e = true -> kern_open e = false ->
  get_inst_kern_ver e st
  = Exit 1 (mkState (st_stdout st) (st_stderr st ++ err_line e "open()")
                    (st_fd_open st) (st_trace st ++ [EvOpen])).
Proof.
  intros Hroot Hopen. unfold get_inst_kern_ver, require_root, root_ok in *.
  destruct (REQUIRE_ROOT e); simpl in Hroot.
  - rewrite Hroot. unfold bind, ret, sys_open, log. rewrite Hopen.
    reflexivity.
  - unfold bind, ret, sys_open, log. rewrite Hopen. reflexivity.
Qed.

Lemma extractor_exit_aux (st st' : state) (n : Z) :
  get_inst_kern_ver e st = Exit n st' ->
  st_fd_open st = false ->
  n = 1%Z
  /\ st_stdout st' = st_stdout st
  /\ st_fd_open st' = false
  /\ (kern_open e = true -> root_ok e = true ->
      exists nreads,
        st_trace st'
        = st_trace st ++ EvOpen :: map EvRead nreads ++ [EvClose; EvStrdup]).
Proof.
  intros H Hfd.
  destruct (root_ok e) eqn:Hroot.
  - destruct (kern_open e) eqn:Hopen.
    + rewrite get_inst_kern_ver_enters in H by assumption.
      apply read_loop_exits in H as [-> [_ [nreads ->]]]. simpl.
      repeat split; trivial. intros _ _. exists nreads.
      now rewrite <- app_assoc.
    + rewrite open_failure_is_fatal_aux in H by assumption.
      injection H as <- <-. simpl. repeat split; trivial. discriminate.
  - unfold root_ok in Hroot. apply orb_false_elim in Hroot as [Hr Hu].
    apply negb_false_iff in Hr. apply Z.eqb_neq in Hu.
    rewrite unprivileged_aux in H by assumption.
    injection H as <- <-. simpl. repeat split; trivial. discriminate.
Qed.

Lemma extractor_exit_state (st st' : state) (n : Z) :
  get_inst_kern_ver e st = Exit n st' ->
  n = 1%Z /\ st_stdout st' = st_stdout st
  /\ (st_fd_open st = false -> st_fd_open st' = false).
Proof.
  intros H. destruct (root_ok e) eqn:Hroot.
  - destruct (kern_open e) eqn:Hopen.
    + rewrite get_inst_kern_ver_enters in H by assumption.
      apply read_loop_exits in H as [-> [_ [nreads ->]]]. auto.
    + rewrite open_failure_is_fatal_aux in H by assumption.
      injection H as <- <-. auto.
  - unfold root_ok in Hroot. apply orb_false_elim in Hroot as [Hr Hu].
    apply negb_false_iff in Hr. apply Z.eqb_neq in Hu.
    rewrite unprivileged_aux in H by assumption.
    injection H as <- <-. auto.
Qed.

End ExtractorExits.



(** X7: when the privilege check passes and open() fails, the process
    exits with status 1 and the diagnostic of err() for "open()"; no
    read and no close is attempted. *)
Theorem open_failure_is_fatal (e : env) (st : state) :
  root_ok e = true -> kern_open e = false ->
  get_inst_kern_ver e st
  = Exit 1 (mkState (st_stdout st) (st_stderr st ++ err_line e "open()")
                    (st_fd_open st) (st_trace st ++ [EvOpen])).
Proof. apply open_failure_is_fatal_aux. Qed.

Lemma open_failure_is_fatal_witness :
  get_inst_kern_ver
    (mkEnv "sysver" "No such file or directory" (fun _ => None)
           (fun _ => None) None 0 0 true false [] (fun _ => NUL) true) st0
  = Exit 1 (mkState "" (line "sysver: open(): No such file or directory")
                    false [EvOpen]).
Proof.
  apply (open_failure_is_fatal
           (mkEnv "sysver" "No such file or directory" (fun _ => None)
                  (fun _ => None) None 0 0 true false [] (fun _ => NUL) true)
           st0); reflexivity.
Defined.

(** X8: every fatal exit of get_inst_kern_ver has status 1, writes
    nothing to standard output and leaves no descriptor open: the one
    exit that comes after the open succeeded, the failed duplication,
    comes after the close. *)
Theorem extractor_exit_invariant (e : env) (st st' : state) (n : Z) :
  get_inst_kern_ver e st = Exit n st' ->
  st_fd_open st = false ->
  n = 1%Z
  /\ st_stdout st' = st_stdout st
  /\ st_fd_open st' = false
  /\ (kern_open e = true -> root_ok e = true ->
      exists nreads,
        st_trace st'
        = st_trace st ++ EvOpen :: map EvRead nreads ++ [EvClose; EvStrdup]).
Proof. apply extractor_exit_aux. Qed.

Lemma extractor_exit_invariant_witness :
  exists st',
    get_inst_kern_ver
      (mkEnv "sysver" "Cannot allocate memory" (fun _ => None)
             (fun _ => None) None 0 0 true true
             [bytes "@(#)OpenBSD 7.4" ++ [NL]] (fun _ => NUL) false) st0
    = Exit 1 st'
    /\ st_fd_open st' = false.
Proof.
  eexists. split.
  - vm_compute. reflexivity.
  - apply (extractor_exit_invariant
             (mkEnv "sysver" "Cannot allocate memory" (fun _ => None)
                    (fun _ => None) None 0 0 true true
                    [bytes "@(#)OpenBSD 7.4" ++ [NL]] (fun _ => NUL) false)
             st0 _ 1%Z); vm_compute; reflexivity.
Defined.

(** ** What the scan finds and what it misses *)

Section ScanMisses.

Variable e : env.

Lemma scan_no_at (buf : buffer) (n : nat) :
  forall p,
    (forall q, p <= q < p + n ->
               exists x, peek buf q = Some x /\ x <> "@"%char) ->
    scan buf p n = Miss.
Proof.
  induction n as [|n IH]; intros p H; simpl; [reflexivity|].
  destruct (H p ltac:(lia)) as [x [Hx Hne]].
  unfold marker_at. rewrite Hx.
  destruct (Ascii.eqb_spec x "@") as [E|_]; [contradiction|]. simpl.
  apply IH. intros q Hq. apply H. lia.
Qed.

Lemma in_firstn (n : nat) (l : list ascii) (x : ascii) :
  In x (firstn n l) -> In x l.
Proof.
  intros H. rewrite <- (firstn_skipn n l). apply in_or_app. now left.
Qed.

Lemma scan_load_no_at (data : list ascii) (buf : buffer) :
  ~ In "@"%char data ->
  scan (load data buf) 0 (length (firstn BUFSZ data)) = Miss.
Proof.
  intros Hno. apply scan_no_at. intros q Hq. unfold load, peek.
  rewrite nth_error_app1 by lia.
  destruct (nth_error (firstn BUFSZ data) q) as [x|] eqn:E.
  - exists x. split; [reflexivity|]. intros ->.
    apply Hno. eapply in_firstn. eapply nth_error_In. exact E.
  - apply nth_error_None in E. lia.
Qed.

Lemma read_loop_no_at :
  forall (pending : list (list ascii)) (buf : buffer) (st : state),
    Forall (fun d => ~ In "@"%char d) pending ->
    exists evs, read_loop e pending buf st = Ret None (traced evs false st).
Proof.
  induction pending as [|data rest IH]; intros buf st Hall.
  - rewrite read_loop_nil. eauto.
  - inversion Hall as [|? ? Hd Hrest]; subst.
    rewrite read_loop_cons.
    pose proof (scan_load_no_at data buf Hd) as Hscan.
    destruct (length (firstn BUFSZ data)) as [|k] eqn:Hk.
    + exists [EvRead 0; EvClose].
      unfold bind, sys_close, log, set_fd, ret, traced. simpl.
      now rewrite <- app_assoc.
    + rewrite Hscan.
      destruct (IH (load data buf)
                   (traced [EvRead (S k)] (st_fd_open st) st) Hrest)
        as [evs Hevs].
      rewrite Hevs. rewrite traced_traced. eauto.
Qed.

Lemma straddle_wild (a m : list ascii) :
  In m [bytes "@"; bytes "@("; bytes "@(#"] ->
  scan (a ++ m) 0 (length a) = Miss ->
  scan (a ++ m) 0 (length (a ++ m)) = Wild.
Proof.
  intros Hm Hmiss. rewrite length_app, scan_add, Hmiss. simpl (0 + length a).
  assert (Hat : marker_at (a ++ m) (length a) = None).
  { rewrite <- (Nat.add_0_r (length a)), marker_at_skip.
    simpl in Hm. destruct Hm as [<-|[<-|[<-|[]]]]; reflexivity. }
  destruct m as [|c m]; [simpl in Hm; intuition discriminate|].
  simpl. now rewrite Hat.
Qed.

End ScanMisses.

(** X9: when the privilege check and the open succeed and no byte
    delivered by any read is "@", the call returns the null pointer,
    whatever the buffer held before. *)
Theorem no_at_sign_reports_absence (e : env) (st : state) :
  root_ok e = true -> kern_open e = true ->
  Forall (fun d => ~ In "@"%char d) (kern_reads e) ->
  returned (get_inst_kern_ver e st) = Some None.
Proof.
  intros Hroot Hopen Hall.
  rewrite get_inst_kern_ver_enters by assumption.
  destruct (read_loop_no_at e (kern_reads e) (fresh_buf e)
                            (traced [EvOpen] true st) Hall) as [evs ->].
  reflexivity.
Qed.

Lemma no_at_sign_reports_absence_witness :
  returned (get_inst_kern_ver
              (demo_env [bytes "ELF header"; bytes "text (#) data"]
                        (fun _ => "@"%char)) st0)
  = Some None.
Proof.
  apply (no_at_sign_reports_absence
           (demo_env [bytes "ELF header"; bytes "text (#) data"]
                     (fun _ => "@"%char)) st0);
    try reflexivity.
  repeat constructor; not_among.
Defined.

(** X10: a marker cut by the end of a full buffer is not passed over
    in silence.  When a read fills all 2048 bytes and its last one,
    two or three bytes are the beginning of the marker, with no hit
    before them, the test reads past the end of the array: the
    behaviour of the call is undefined. *)
Theorem straddling_marker_reads_outside
        (e : env) (pre : list (list ascii)) (a m : list ascii)
        (post : list (list ascii)) (st : state) :
  kern_reads e = pre ++ (a ++ m) :: post ->
  root_ok e = true -> kern_open e = true ->
  quiet (fresh_buf e) pre = true ->
  length (a ++ m) = BUFSZ ->
  In m [bytes "@"; bytes "@("; bytes "@(#"] ->
  scan (a ++ m) 0 (length a) = Miss ->
  get_inst_kern_ver e st = Undef.
Proof.
  intros Hreads Hroot Hopen Hquiet Hlen Hm Hmiss.
  rewrite get_inst_kern_ver_enters by assumption.
  rewrite Hreads, read_loop_quiet by assumption.
  rewrite read_loop_cons.
  assert (Hload : load (a ++ m) (buf_after (fresh_buf e) pre) = a ++ m).
  { unfold load. rewrite firstn_all2 by lia.
    rewrite skipn_all2; [apply app_nil_r|].
    rewrite buf_after_length by apply fresh_buf_length. lia. }
  rewrite Hload. rewrite firstn_all2 by lia.
  rewrite straddle_wild by assumption.
  rewrite Hlen. reflexivity.
Qed.

Lemma straddling_marker_reads_outside_witness :
  get_inst_kern_ver
    (demo_env [repeat "x"%char 2046 ++ bytes "@("; bytes "#)OpenBSD"]
              (fun _ => NUL)) st0
  = Undef.
Proof.
  apply (straddling_marker_reads_outside
           (demo_env [repeat "x"%char 2046 ++ bytes "@("; bytes "#)OpenBSD"]
                     (fun _ => NUL))
           [] (repeat "x"%char 2046) (bytes "@(") [bytes "#)OpenBSD"] st0);
    try (vm_compute; reflexivity).
  right; left; reflexivity.
Defined.

(** ** The string handed back *)

Section Returned.

Variable e : env.

Lemma c_string_at_inv (mem : list ascii) :
  forall v, c_string_at mem = Some v ->
    exists rest, mem = bytes v ++ NUL :: rest /\ ~ In NUL (bytes v).
Proof.
  induction mem as [|x mem IH]; intros v; simpl; [discriminate|].
  destruct (Ascii.eqb_spec x NUL) as [->|Hx].
  - intros H. injection H as <-. exists mem. simpl. auto.
  - destruct (c_string_at mem) as [w|]; [|discriminate]. simpl.
    intros H. injection H as <-.
    destruct (IH w eq_refl) as [rest [-> Hno]].
    exists rest. simpl. split; [reflexivity|].
    intros [E|E]; [congruence|contradiction].
Qed.

Lemma poke_length (buf : buffer) (c : ascii) :
  forall i, length (poke buf i c) = length buf.
Proof.
  induction buf as [|x buf IH]; intros [|i]; simpl; try reflexivity.
  now rewrite IH.
Qed.

Lemma bytes_length (v : string) : length (bytes v) = String.length v.
Proof. induction v as [|c v IH]; simpl; [reflexivity|]. now rewrite IH. Qed.

Lemma on_match_found_inv
      (buf : buffer) (p : nat) (st st' : state) (v : string) :
  on_match e buf p st = Ret (Some v) st' ->
  exists pos,
    strpchr (skipn (p + 4) buf) NL = Some pos
    /\ c_string_at (skipn (p + 4)
                          (if (0 <? pos)%nat
                           then poke buf (p + 4 + pos) NUL else buf))
       = Some v.
Proof.
  unfold on_match. rewrite consltill_add.
  destruct (strpchr _ _) as [pos|]; [|discriminate].
  unfold bind, sys_close, log, set_fd. simpl.
  destruct (c_string_at _) as [w|] eqn:E; [|discriminate].
  destruct (strdup_ok e); [|discriminate].
  unfold ret. intros H. injection H as <- _. exists pos. auto.
Qed.

Lemma read_loop_found_inv :
  forall (pending : list (list ascii)) (buf : buffer) (st st' : state)
         (v : string),
    read_loop e pending buf st = Ret (Some v) st' ->
    length buf = BUFSZ ->
    exists buf' p st1,
      length buf' = BUFSZ /\ on_match e buf' p st1 = Ret (Some v) st'.
Proof.
  induction pending as [|data rest IH]; intros buf st st' v.
  - rewrite read_loop_nil. discriminate.
  - rewrite read_loop_cons. intros H Hlen.
    destruct (length (firstn BUFSZ data)) as [|k].
    + revert H. unfold bind, sys_close, log, set_fd, ret. discriminate.
    + destruct (scan (load data buf) 0 (S k)) as [p| |]; [| |discriminate].
      * exists (load data buf), p. eexists. split; [|exact H].
        now apply load_length.
      * apply IH in H; [exact H|]. now apply load_length.
Qed.

Lemma get_inst_kern_ver_ret (st st' : state) (r : option string) :
  get_inst_kern_ver e st = Ret r st' ->
  read_loop e (kern_reads e) (fresh_buf e) (traced [EvOpen] true st)
  = Ret r st'.
Proof.
  unfold get_inst_kern_ver, require_root, sys_open.
  unfold bind, errx, err, put_stderr, exit, log, set_fd, ret.
  destruct (REQUIRE_ROOT e); [destruct (negb (getuid e =? 0)%Z);
    [destruct (negb (geteuid e =? 0)%Z); try discriminate|]|];
  simpl; destruct (kern_open e); simpl; try discriminate; trivial.
Qed.

Lemma returned_ret {A} (o : outcome A) (r : A) :
  returned o = Some r -> exists st', o = Ret r st'.
Proof.
  destruct o as [a s| |]; simpl; try discriminate.
  intros H. injection H as <-. eauto.
Qed.

(** What a returned string is made of: the bytes, from the end of a
    marker in a full-size buffer to the first terminator, after the
    newline search. *)
Lemma found_inv (st : state) (v : string) :
  returned (get_inst_kern_ver e st) = Some (Some v) ->
  exists buf p pos,
    length buf = BUFSZ
    /\ strpchr (skipn (p + 4) buf) NL = Some pos
    /\ c_string_at (skipn (p + 4)
                          (if (0 <? pos)%nat
                           then poke buf (p + 4 + pos) NUL else buf))
       = Some v.
Proof.
  intros H. apply returned_ret in H as [st' H].
  apply get_inst_kern_ver_ret in H.
  apply read_loop_found_inv in H as [buf [p [st1 [Hlen H]]]];
    [|apply fresh_buf_length].
  apply on_match_found_inv in H as [pos [Hs Hc]].
  exists buf, p, pos. auto.
Qed.

End Returned.

(** X11: a string returned by get_inst_kern_ver holds no terminator
    byte and is at most 2043 bytes long: it lies, with its terminator,
    in the buffer after the four bytes of a marker. *)
Theorem returned_version_fits_buffer (e : env) (st : state) (v : string) :
  returned (get_inst_kern_ver e st) = Some (Some v) ->
  ~ In NUL (bytes v) /\ String.length v <= 2043.
Proof.
  intros H. apply found_inv in H as [buf [p [pos [Hlen [_ Hc]]]]].
  apply c_string_at_inv in Hc as [rest [Hmem Hno]].
  split; [exact Hno|].
  apply (f_equal (@length ascii)) in Hmem.
  rewrite length_skipn, length_app in Hmem. simpl in Hmem.
  rewrite bytes_length in Hmem.
  assert (Hb : length (if (0 <? pos)%nat
                       then poke buf (p + 4 + pos) NUL else buf) = 2048).
  { destruct (0 <? pos)%nat; [rewrite poke_length|]; exact Hlen. }
  rewrite Hb in Hmem. lia.
Qed.

Lemma returned_version_fits_buffer_witness :
  String.length "OpenBSD 7.4" <= 2043.
Proof.
  apply (returned_version_fits_buffer
           (demo_env [bytes "@(#)OpenBSD 7.4" ++ [NL]] (fun _ => NUL)) st0
           "OpenBSD 7.4").
  vm_compute. reflexivity.
Defined.

(** X12: a string returned by get_inst_kern_ver holds a newline only
    when it begins with one, which is the case of a newline right
    after the marker; in every other case the string stops before the
    first newline. *)
Theorem returned_newline_only_leading (e : env) (st : state) (v : string) :
  returned (get_inst_kern_ver e st) = Some (Some v) ->
  In NL (bytes v) ->
  exists t, v = String NL t.
Proof.
  intros H Hnl. apply found_inv in H as [buf [p [pos [_ [Hs Hc]]]]].
  destruct (Nat.ltb_spec 0 pos) as [Hpos|Hpos].
  - exfalso. unfold strpchr in Hs.
    destruct (strpchr_from_positive _ _ 0 pos Hs Hpos) as [_ [Hat Hbefore]].
    rewrite Nat.sub_0_r in Hat, Hbefore.
    apply nth_error_split in Hat as [s [rest [Hmem Hlen]]].
    replace (p + 4 + pos) with ((p + 4) + pos) in Hc by lia.
    rewrite poke_skipn, Hmem, <- Hlen, poke_middle in Hc.
    assert (Hs0 : ~ In NUL s /\ ~ In NL s).
    { split; intros Hin; apply In_nth_error in Hin as [j Hj];
        assert (Hjl : j < pos)
          by (rewrite <- Hlen; apply nth_error_Some; congruence);
        destruct (Hbefore j Hjl) as [x [Hx [Hx1 Hx2]]];
        rewrite Hmem, nth_error_app1 in Hx by lia; congruence. }
    rewrite c_string_at_terminated in Hc by apply Hs0.
    injection Hc as <-.
    unfold bytes in Hnl. rewrite list_ascii_of_string_of_list_ascii in Hnl.
    now apply Hs0.
  - assert (pos = 0) by lia. subst pos. unfold strpchr in Hs.
    destruct (skipn (p + 4) buf) as [|x mem]; [discriminate|].
    simpl in Hs, Hc.
    destruct (Ascii.eqb_spec x NUL) as [->|Hx0].
    + injection Hc as <-. contradiction.
    + destruct (Ascii.eqb_spec x NL) as [->|Hx1].
      * destruct (c_string_at mem) as [w|]; [|discriminate].
        injection Hc as <-. eauto.
      * exfalso. apply strpchr_from_zero in Hs as [s [rest [-> [H0 H1]]]].
        rewrite c_string_at_terminated in Hc by assumption.
        injection Hc as <-. simpl in Hnl.
        unfold bytes in Hnl.
        rewrite list_ascii_of_string_of_list_ascii in Hnl.
        destruct Hnl as [E|E]; [congruence|contradiction].
Qed.

Lemma returned_newline_only_leading_witness :
  exists t, String NL "more" = String NL t.
Proof.
  apply (returned_newline_only_leading
           (demo_env [bytes "@(#)" ++ NL :: bytes "more" ++ [NUL]]
                     (fun _ => NUL)) st0 (String NL "more")).
  - vm_compute. reflexivity.
  - left. reflexivity.
Defined.

(** ** The dispatcher and [main], on every input *)

Section DispatcherSound.

Lemma match_loop_inv (l1 : list command_option) (arg : string) (c : Z) :
  Forall (fun o => is_sentinel o = false /\ cmd o <> None) l1 ->
  match_loop (l1 ++ [mkOpt 0 None]) arg = Some c ->
  (c = 0%Z /\ Forall (fun o => ~ contains (token_of o) arg) l1)
  \/ exists la o lb,
       l1 = la ++ o :: lb /\ code o = c /\ contains (token_of o) arg
       /\ Forall (fun o' => ~ contains (token_of o') arg) la.
Proof.
  induction 1 as [|o l1 [Hs Hc] _ IH].
  - simpl. intros H. injection H as <-. left. auto.
  - simpl. rewrite Hs. unfold token_of in *.
    destruct (cmd o) as [tok|] eqn:Ho; [|congruence].
    destruct (strstr tok arg) as [k|] eqn:Hk.
    + intros H. injection H as <-. right. exists [], o, l1.
      rewrite Ho. repeat split; auto.
      apply strstr_contains. congruence.
    + apply strstr_none in Hk. intros H.
      destruct (IH H) as [[-> Hall]|[la [o' [lb [-> [Hcode [Hin Hbefore]]]]]]].
      * left. split; [reflexivity|]. constructor; [now rewrite Ho|exact Hall].
      * right. exists (o :: la), o', lb. repeat split; auto.
        constructor; [now rewrite Ho|exact Hbefore].
Qed.

Lemma match_loop_total (l1 : list command_option) (arg : string) :
  Forall (fun o => is_sentinel o = false /\ cmd o <> None) l1 ->
  exists c, match_loop (l1 ++ [mkOpt 0 None]) arg = Some c.
Proof.
  induction 1 as [|o l1 [Hs Hc] _ IH]; simpl; [eauto|].
  rewrite Hs. destruct (cmd o) as [tok|]; [|congruence].
  destruct (strstr tok arg); eauto.
Qed.

Lemma match_loop_cb_range (arg : string) :
  exists c, match_loop cb arg = Some c /\ (0 <= c <= 10)%Z.
Proof.
  destruct (match_loop_total flags arg flags_proper) as [c Hc].
  exists c. split; [exact Hc|].
  destruct (match_loop_inv flags arg c flags_proper Hc)
    as [[-> _]|[la [o [lb [Hsplit [<- _]]]]]]; [lia|].
  assert (Hin : In o flags) by (rewrite Hsplit; apply in_elt).
  simpl in Hin.
  repeat (destruct Hin as [<-|Hin]; [simpl; lia|]). contradiction.
Qed.

Lemma match_args_cases (argv : list string) :
  argv = []
  \/ (exists prog, argv = [prog])
  \/ exists prog arg more,
       argv = prog :: arg :: more
       /\ (arg = "-"
           \/ (arg <> "-" /\ match_args cb argv = match_loop cb arg)).
Proof.
  destruct argv as [|prog [|arg more]]; eauto.
  right; right. exists prog, arg, more. split; [reflexivity|].
  destruct (bare_dash arg) eqn:B.
  - left. now apply bare_dash_spec.
  - right. split.
    + intros E. apply bare_dash_spec in E. congruence.
    + simpl. now rewrite B.
Qed.

End DispatcherSound.

(** X13: for every argument vector that holds at least the program
    name, the dispatcher returns a code, and the code lies between -2
    and 10: the switch of [main] always finds its case. *)
Theorem match_args_total_in_range (argv : list string) :
  argv <> [] ->
  exists c, match_args cb argv = Some c /\ (-2 <= c <= 10)%Z.
Proof.
  intros Hne.
  destruct (match_args_cases argv)
    as [->|[[prog ->]|[prog [arg [more [-> [->|[_ Hm]]]]]]]].
  - contradiction.
  - exists (-1)%Z. split; [reflexivity|lia].
  - exists (-2)%Z. split; [reflexivity|lia].
  - rewrite Hm. destruct (match_loop_cb_range arg) as [c [Hc Hr]].
    exists c. split; [exact Hc|lia].
Qed.

Lemma match_args_total_in_range_witness :
  exists c, match_args cb ["sysver"; "-ncpu"; "junk"] = Some c
            /\ (-2 <= c <= 10)%Z.
Proof.
  apply (match_args_total_in_range ["sysver"; "-ncpu"; "junk"]).
  discriminate.
Defined.

(** X14: a positive code returned by the dispatcher is the code of a
    table entry whose token contains the argument, no earlier token
    containing it; and code 0 is returned only when no token of the
    table contains the argument. *)
Theorem dispatch_sound
        (prog arg : string) (more : list string) (c : Z) :
  arg <> "-" ->
  match_args cb (prog :: arg :: more) = Some c ->
  (c = 0%Z /\ Forall (fun o => ~ contains (token_of o) arg) flags)
  \/ exists la o lb,
       flags = la ++ o :: lb /\ code o = c /\ contains (token_of o) arg
       /\ Forall (fun o' => ~ contains (token_of o') arg) la.
Proof.
  intros Hdash H. apply (match_loop_inv flags arg c flags_proper).
  assert (Hb : bare_dash arg = false).
  { destruct (bare_dash arg) eqn:B; [|reflexivity].
    apply bare_dash_spec in B. contradiction. }
  simpl in H. now rewrite Hb in H.
Qed.

Lemma dispatch_sound_witness :
  (5%Z = 0%Z /\ Forall (fun o => ~ contains (token_of o) "on") flags)
  \/ exists la o lb,
       flags = la ++ o :: lb /\ code o = 5%Z /\ contains (token_of o) "on"
       /\ Forall (fun o' => ~ contains (token_of o') "on") la.
Proof.
  apply (dispatch_sound "sysver" "on" [] 5%Z);
    [discriminate|reflexivity].
Defined.


Section MainPaths.

Variable e : env.

Lemma get_inst_kern_ver_ret_state (st st' : state) (r : option string) :
  get_inst_kern_ver e st = Ret r st' ->
  st_stdout st' = st_stdout st
  /\ st_stderr st' = st_stderr st
  /\ st_fd_open st' = false.
Proof.
  intros H. apply get_inst_kern_ver_ret in H.
  apply read_loop_returns in H as [nreads ->]. auto.
Qed.

(** The paths of [main] other than the kernel-image one leave the
    descriptor flag alone; all of them end with status 0 on return,
    and exit with status 1 and an untouched standard output, or with
    status 0 after the usage block. *)
Lemma main_outcomes (argv : list string) (st : state) :
  match main e argv st with
  | Ret v st' =>
      v = 0%Z /\ (st_fd_open st = false -> st_fd_open st' = false)
  | Exit n st' =>
      ((n = 0%Z /\ st_stdout st' = (st_stdout st ++ usage_text)%string
        /\ st_stderr st' = st_stderr st)
       \/ (n = 1%Z /\ st_stdout st' = st_stdout st))
      /\ (st_fd_open st = false -> st_fd_open st' = false)
  | Undef => True
  end.
Proof.
  destruct (match_args_cases argv)
    as [->|[[prog ->]|[prog [arg [more [-> [->|[_ Hm]]]]]]]].
  - exact I.
  - simpl. auto.
  - simpl. auto.
  - unfold main. rewrite Hm.
    destruct (match_loop_cb_range arg) as [c [-> Hr]].
    assert (Hc : In c [0; 1; 2; 3; 4; 5; 6; 7; 8; 9; 10]%Z).
    { assert (c = 0 \/ c = 1 \/ c = 2 \/ c = 3 \/ c = 4 \/ c = 5 \/ c = 6
              \/ c = 7 \/ c = 8 \/ c = 9 \/ c = 10)%Z by lia.
      simpl. intuition auto. }
    simpl in Hc.
    repeat (destruct Hc as [<-|Hc]);
      try contradiction; cbv iota beta;
      unfold get_sysctl_string, get_sysctl_number, get_uname_info, bind;
      try (destruct (sysctl_string e _); simpl; auto; fail);
      try (destruct (sysctl_number e _); simpl; auto; fail);
      try (destruct (uname e); simpl; auto; fail);
      try (simpl; auto; fail).
    destruct (get_inst_kern_ver e st) as [r st1|n st1|] eqn:G; [| |exact I].
    + apply get_inst_kern_ver_ret_state in G as [G1 [G2 G3]].
      destruct r; simpl; auto.
    + apply extractor_exit_state in G as [-> [G1 G3]]. auto.
Qed.

End MainPaths.

(** X16: a run of [main] that returns does so with status 0; a run
    that exits does so either with status 0 after writing the usage
    block to standard output and nothing to the error stream (the help
    flag), or with status 1 and nothing written to standard output. *)
Theorem main_exit_status (e : env) (argv : list string) (st : state) :
  match main e argv st with
  | Ret v _ => v = 0%Z
  | Exit n st' =>
      (n = 0%Z /\ st_stdout st' = (st_stdout st ++ usage_text)%string
       /\ st_stderr st' = st_stderr st)
      \/ (n = 1%Z /\ st_stdout st' = st_stdout st)
  | Undef => True
  end.
Proof.
  pose proof (main_outcomes e argv st) as H.
  destruct (main e argv st); intuition.
Qed.

(** X17: [main] never ends with the kernel image still open: started
    with the descriptor closed, every return and every exit leaves it
    closed. *)
Theorem main_leaves_descriptor_closed
        (e : env) (argv : list string) (st : state) :
  st_fd_open st = false ->
  match main e argv st with
  | Ret _ st' => st_fd_open st' = false
  | Exit _ st' => st_fd_open st' = false
  | Undef => True
  end.
Proof.
  intros F. pose proof (main_outcomes e argv st) as H.
  destruct (main e argv st); intuition.
Qed.

Lemma main_leaves_descriptor_closed_witness :
  match main (demo_env [bytes "@(#)OpenBSD 7.4" ++ [NL]] (fun _ => NUL))
             ["sysver"; "-ikern"] st0 with
  | Ret _ st' => st_fd_open st' = false
  | Exit _ st' => st_fd_open st' = false
  | Undef => True
  end.
Proof.
  apply (main_leaves_descriptor_closed
           (demo_env [bytes "@(#)OpenBSD 7.4" ++ [NL]] (fun _ => NUL))
           ["sysver"; "-ikern"] st0).
  reflexivity.
Defined.

(** X18: when the SMT operation (code 6) is selected and the query
    succeeds, the program prints "no" for the value 0 and "yes" for
    every other value, with a newline, and returns with status 0. *)
Theorem smt_mapping (e : env) (argv : list string) (st : state) (v : Z) :
  match_args cb argv = Some 6%Z ->
  sysctl_number e HW_SMT = Some v ->
  (v = 0%Z ->
   main e argv st
   = Ret 0%Z (mkState (st_stdout st ++ line "no") (st_stderr st)
                      (st_fd_open st) (st_trace st)))
  /\ (v <> 0%Z ->
      main e argv st
      = Ret 0%Z (mkState (st_stdout st ++ line "yes") (st_stderr st)
                         (st_fd_open st) (st_trace st))).
Proof.
  intros Hcode Hv. unfold main. rewrite Hcode. cbv iota beta.
  unfold get_sysctl_number, bind. rewrite Hv. split.
  - intros ->. reflexivity.
  - intros Hne. apply Z.eqb_neq in Hne. unfold ret, put_stdout.
    cbv beta iota. rewrite Hne. reflexivity.
Qed.

Lemma smt_mapping_witness :
  main (demo_env [] (fun _ => NUL)) ["sysver"; "-issmt"] st0
  = Ret 0%Z (mkState (line "yes") "" false []).
Proof.
  assert (H4 : 4%Z <> 0%Z) by discriminate.
  exact (proj2 (smt_mapping (demo_env [] (fun _ => NUL))
                            ["sysver"; "-issmt"] st0 4%Z
                            eq_refl eq_refl) H4).
Defined.

(** X19: end to end, when the installed-kernel operation (code 9) is
    selected and the first hit of the scan is followed in the buffer by
    a non-empty text without terminator and then a newline, the
    program prints that text and a newline on standard output, nothing
    on the error stream, closes the image and returns with status 0. *)
Theorem ikern_prints_version
        (e : env) (argv : list string) (pre : list (list ascii))
        (data : list ascii) (post : list (list ascii)) (p : nat)
        (s rest : list ascii) (st : state) :
  match_args cb argv = Some 9%Z ->
  kern_reads e = pre ++ data :: post ->
  root_ok e = true -> kern_open e = true -> strdup_ok e = true ->
  quiet (fresh_buf e) pre = true ->
  scan (load data (buf_after (fresh_buf e) pre)) 0
       (length (firstn BUFSZ data)) = Hit p ->
  skipn (p + 4) (load data (buf_after (fresh_buf e) pre)) = s ++ NL :: rest ->
  s <> [] -> ~ In NUL s -> ~ In NL s ->
  exists st',
    main e argv st = Ret 0%Z st'
    /\ st_stdout st' = (st_stdout st ++ line (string_of_list_ascii s))%string
    /\ st_stderr st' = st_stderr st
    /\ st_fd_open st' = false.
Proof.
  intros Hcode Hreads Hroot Hopen Hdup Hquiet Hscan Hmem Hne H0 H1.
  pose proof (extract_at_hit e pre data post p s rest st Hreads Hroot Hopen
                             Hdup Hquiet Hscan Hmem Hne H0 H1) as G.
  apply returned_ret in G as [st1 G].
  pose proof (get_inst_kern_ver_ret_state e st st1 _ G) as [G1 [G2 G3]].
  unfold main. rewrite Hcode. cbv iota beta. unfold bind at 1.
  rewrite G. eexists. split; [reflexivity|]. simpl.
  rewrite G1, G2. auto.
Qed.

Lemma ikern_prints_version_witness :
  exists st',
    main (demo_env [bytes "abc@(#)GENERIC#42" ++ NL :: bytes "more"]
                   (fun _ => NUL)) ["sysver"; "-ikern"] st0
    = Ret 0%Z st'
    /\ st_stdout st' = line "GENERIC#42"
    /\ st_stderr st' = ""
    /\ st_fd_open st' = false.
Proof.
  apply (ikern_prints_version
           (demo_env [bytes "abc@(#)GENERIC#42" ++ NL :: bytes "more"]
                     (fun _ => NUL))
           ["sysver"; "-ikern"]
           [] (bytes "abc@(#)GENERIC#42" ++ NL :: bytes "more") [] 3
           (bytes "GENERIC#42")
           (bytes "more" ++ repeat NUL (BUFSZ - 22)) st0);
    try (vm_compute; reflexivity); try discriminate; not_among.
Defined.

(** The help flag ends the run with status 0 after writing the
    usage block to standard output, whatever follows it on the command
    line and whatever the system would answer. *)
Lemma help_exits_successfully
        (e : env) (prog : string) (more : list string) (st : state) :
  main e (prog :: "-help" :: more) st
  = Exit 0 (mkState (st_stdout st ++ usage_text) (st_stderr st)
                    (st_fd_open st) (st_trace st)).
Proof. reflexivity. Qed.

(** ** Bounds of the scan *)

Section ScanBounds.

Lemma scan_miss_from (buf : buffer) (n : nat) :
  forall p0,
    scan buf p0 n = Miss ->
    forall q, p0 <= q < p0 + n -> marker_at buf q = Some false.
Proof.
  induction n as [|n IH]; intros p0; simpl; [intros _ q Hq; lia|].
  destruct (marker_at buf p0) as [[|]|] eqn:E; try discriminate.
  intros H q Hq. destruct (Nat.eq_dec q p0) as [->|Hne]; [exact E|].
  apply (IH _ H). lia.
Qed.

Lemma marker_at_in_bounds (buf : buffer) (p : nat) :
  p + 3 < length buf -> marker_at buf p <> None.
Proof.
  intros Hp. unfold marker_at, peek.
  destruct (nth_error buf p) as [c0|] eqn:E0;
    [|apply nth_error_None in E0; lia].
  destruct (negb (Ascii.eqb c0 "@")); [discriminate|].
  destruct (nth_error buf (p + 1)) as [c1|] eqn:E1;
    [|apply nth_error_None in E1; lia].
  destruct (negb (Ascii.eqb c1 "(")); [discriminate|].
  destruct (nth_error buf (p + 2)) as [c2|] eqn:E2;
    [|apply nth_error_None in E2; lia].
  destruct (negb (Ascii.eqb c2 "#")); [discriminate|].
  destruct (nth_error buf (p + 3)) as [c3|] eqn:E3;
    [|apply nth_error_None in E3; lia].
  discriminate.
Qed.

Lemma scan_in_bounds (buf : buffer) (n : nat) :
  forall p, p + n + 3 <= length buf -> scan buf p n <> Wild.
Proof.
  induction n as [|n IH]; intros p Hp; simpl; [discriminate|].
  pose proof (marker_at_in_bounds buf p ltac:(lia)) as Hm.
  destruct (marker_at buf p) as [[|]|]; [discriminate| |congruence].
  apply IH. lia.
Qed.

Lemma quiet_no_at (pre : list (list ascii)) :
  forall buf,
    Forall (fun d => d <> [] /\ ~ In "@"%char d) pre ->
    quiet buf pre = true.
Proof.
  induction pre as [|d pre IH]; intros buf Hall; [reflexivity|].
  inversion Hall as [|? ? [Hne Hno] Hrest]; subst.
  change (quiet buf (d :: pre))
    with ((0 <? length (firstn BUFSZ d))%nat
          && match scan (load d buf) 0 (length (firstn BUFSZ d))
             with Miss => true | _ => false end
          && quiet (load d buf) pre).
  rewrite scan_load_no_at by exact Hno. rewrite IH by exact Hrest.
  rewrite !andb_true_r. apply Nat.ltb_lt.
  destruct d; [contradiction|]. simpl. lia.
Qed.

Lemma scan_prefix_no_at (a tail : list ascii) :
  ~ In "@"%char a -> scan (a ++ tail) 0 (length a) = Miss.
Proof.
  intros Hno. apply scan_no_at. intros q Hq. unfold peek.
  rewrite nth_error_app1 by lia.
  destruct (nth_error a q) as [x|] eqn:E.
  - exists x. split; [reflexivity|]. intros ->.
    apply Hno. eapply nth_error_In. exact E.
  - apply nth_error_None in E. lia.
Qed.

End ScanBounds.

(** X20: when the scan of the first [n] bytes of the buffer ends
    without a hit, the marker starts at none of these [n] positions of
    the buffer. *)
Theorem scan_miss_no_marker (buf : buffer) (n : nat) :
  scan buf 0 n = Miss ->
  forall q, q < n -> firstn 4 (skipn q buf) <> marker.
Proof.
  intros H q Hq E.
  assert (Hf : marker_at buf q = Some false)
    by (apply (scan_miss_from buf n 0 H); lia).
  apply (marker_at_window buf q false Hf) in E. discriminate.
Qed.

Lemma scan_miss_no_marker_witness :
  firstn 4 (skipn 1 (bytes "a@(#x)zz")) <> marker.
Proof.
  apply (scan_miss_no_marker (bytes "a@(#x)zz") 5); [reflexivity|lia].
Defined.

(** X21: a read that delivers at most 2045 bytes never makes the marker
    test leave the buffer: the three bytes it may look at after the
    last valid one are still inside the array. *)
Theorem short_read_scan_in_bounds (data : list ascii) (buf : buffer) :
  length buf = BUFSZ ->
  length data <= 2045 ->
  scan (load data buf) 0 (length (firstn BUFSZ data)) <> Wild.
Proof.
  intros Hbuf Hdata. apply scan_in_bounds.
  rewrite load_length by exact Hbuf.
  rewrite length_firstn. unfold BUFSZ. lia.
Qed.

Lemma short_read_scan_in_bounds_witness :
  scan (load (bytes "tail@(#") (repeat NUL BUFSZ)) 0
       (length (firstn BUFSZ (bytes "tail@(#"))) <> Wild.
Proof.
  apply (short_read_scan_in_bounds (bytes "tail@(#") (repeat NUL BUFSZ)).
  - apply repeat_length.
  - simpl. lia.
Defined.

(** X22: the result depends on the delivered bytes alone when marker,
    text and newline lie in one delivery and no "@" comes before:
    for non-empty earlier deliveries without "@", bytes [a] without
    "@", and a non-empty text [v] without terminator or newline, the
    call returns [v], whatever the buffer held before the first read
    and whatever follows. *)
Theorem extraction_from_valid_bytes
        (e : env) (pre : list (list ascii)) (a b : list ascii) (v : string)
        (post : list (list ascii)) (st : state) :
  kern_reads e = pre ++ version_chunk a v b :: post ->
  length (version_chunk a v b) <= BUFSZ ->
  root_ok e = true -> kern_open e = true -> strdup_ok e = true ->
  Forall (fun d => d <> [] /\ ~ In "@"%char d) pre ->
  ~ In "@"%char a ->
  v <> "" -> ~ In NUL (bytes v) -> ~ In NL (bytes v) ->
  returned (get_inst_kern_ver e st) = Some (Some v).
Proof.
  intros Hreads Hfit Hroot Hopen Hdup Hpre Ha Hv H0 H1.
  unfold version_chunk in *.
  pose proof (scan_prefix_no_at a (marker ++ bytes v ++ NL :: b) Ha) as Hmiss.
  destruct (scan_reaches_marker a (bytes v ++ NL :: b)
                                (buf_after (fresh_buf e) pre) Hfit Hmiss)
    as [Hhit Hmem].
  rewrite <- app_assoc in Hmem.
  rewrite <- (string_of_list_ascii_of_string v).
  eapply extract_at_hit; try eassumption.
  - now apply quiet_no_at.
  - destruct v; [contradiction|discriminate].
Qed.

Lemma extraction_from_valid_bytes_witness :
  returned (get_inst_kern_ver
              (demo_env [bytes "ELF"; version_chunk (bytes "..")
                                        "GENERIC.MP#7" (bytes "more")]
                        (fun _ => "@"%char)) st0)
  = Some (Some "GENERIC.MP#7").
Proof.
  apply (extraction_from_valid_bytes
           (demo_env [bytes "ELF"; version_chunk (bytes "..")
                                     "GENERIC.MP#7" (bytes "more")]
                     (fun _ => "@"%char))
           [bytes "ELF"] (bytes "..") (bytes "more") "GENERIC.MP#7" [] st0);
    try (vm_compute; reflexivity); try discriminate; try not_among.
  - vm_compute. lia.
  - repeat constructor; try discriminate; not_among.
Defined.
